(** * Eigenface decomposition script: [hog/eigenfaces.py]

    A shallow embedding of the image normaliser [_reshape], of the
    corpus assembly and basis rendering in [compute_eigenfaces] and of
    the artifact writer [plot_eigenfaces], with the properties of the
    design document stated over them.

    Conventions.
    - A numpy array is its shape together with its C-ordered (row-major)
      buffer.
    - A floating-point number is the rational it denotes.  The arithmetic
      on pixels -- the column mean and the subtraction of the mean face --
      is idealised as exact.  The product [eigenvalue * 100] that is
      printed into the name of an eigenface is rounded to the nearest
      double, as Python does, for the rounding can change the last digit
      printed.
    - A Python exception is a value of [exn]; a computation that may
      raise returns a [result].
    - [matplotlib.image.imread] and [sklearn]'s
      [RandomizedPCA(n_components=k).fit] are collaborators outside the
      script, and so are [os.makedirs], [matplotlib.image.imsave] and
      writing a pickle through [gzip]; the pipeline is parametrised by
      them.  The writers act on a store of files by path and may fail.
    - [_log] writes a time-stamped line to stderr and touches no file; it
      is left out of the pipeline and modelled on its own. *)

From Stdlib Require Import List String Ascii ZArith QArith Qround Qabs Qpower Lia Lqa.
From stdpp Require Import gmap strings.
Import ListNotations.
Open Scope string_scope.
Open Scope nat_scope.

(** ** Exceptions and results *)

Inductive exn : Type :=
| ValueError (msg : string)
| IndexError (msg : string)
| IOError (msg : string)
| OSError (errno : Z) (msg : string).

(** [errno.EEXIST] *)
Definition EEXIST : Z := 17.

Inductive result (A : Type) : Type :=
| Return (a : A)
| Raise (e : exn).

Arguments Return {A} a.
Arguments Raise {A} e.

Definition bind {A B : Type} (c : result A) (k : A -> result B) : result B :=
  match c with
  | Return a => k a
  | Raise e => Raise e
  end.

Notation "'let*' x ':=' c 'in' k" := (bind c (fun x => k))
  (at level 10, x pattern, c at level 100, k at level 200).

(** [[f(x) for x in xs]] with [f] raising: the first exception escapes. *)
Fixpoint mapM {A B : Type} (f : A -> result B) (xs : list A) : result (list B) :=
  match xs with
  | [] => Return []
  | x :: xs' =>
      let* y := f x in
      let* ys := mapM f xs' in
      Return (y :: ys)
  end.

(** ** Printing integers and tuples: [str] *)

Definition digit_char (d : nat) : ascii := ascii_of_nat (48 + d).

Fixpoint str_digits (fuel : nat) (n : N) (acc : string) : string :=
  match fuel with
  | O => acc
  | S fuel' =>
      let acc' := String (digit_char (N.to_nat (n mod 10))) acc in
      if (n / 10 =? 0)%N then acc' else str_digits fuel' (n / 10)%N acc'
  end.

(** [str(n)] for a non-negative integer. *)
Definition str_N (n : N) : string := str_digits (S (N.to_nat (N.log2 n))) n "".

Definition str_nat (n : nat) : string := str_N (N.of_nat n).

Fixpoint join (sep : string) (xs : list string) : string :=
  match xs with
  | [] => ""
  | [x] => x
  | x :: xs' => x ++ sep ++ join sep xs'
  end.

(** [str(t)] for a tuple of integers: [(120, 100)], [(5,)], [()]. *)
Definition str_tuple (t : list nat) : string :=
  match t with
  | [n] => "(" ++ str_nat n ++ ",)"
  | _ => "(" ++ join ", " (map str_nat t) ++ ")"
  end.

(** ** numpy arrays *)

Record ndarray : Type := mk_ndarray {
  shape : list nat;
  data : list Q
}.

Definition size_of (sh : list nat) : nat := fold_right Nat.mul 1 sh.

(** The buffer holds exactly as many elements as the shape announces. *)
Definition wf (a : ndarray) : Prop := length (data a) = size_of (shape a).

Fixpoint shape_eqb (s t : list nat) : bool :=
  match s, t with
  | [], [] => true
  | x :: s', y :: t' => (x =? y) && shape_eqb s' t'
  | _, _ => false
  end.

(** Row-major offset of a multi-index, [None] when out of bounds. *)
Fixpoint offset_from (acc : nat) (sh idx : list nat) : option nat :=
  match sh, idx with
  | [], [] => Some acc
  | d :: sh', i :: idx' =>
      if i <? d then offset_from (acc * d + i) sh' idx' else None
  | _, _ => None
  end.

(** [a[i0, i1, ...]] *)
Definition item (a : ndarray) (idx : list nat) : option Q :=
  match offset_from 0 (shape a) idx with
  | Some o => nth_error (data a) o
  | None => None
  end.

(** [np.zeros(shape)] *)
Definition np_zeros (sh : list nat) : ndarray :=
  {| shape := sh; data := repeat 0%Q (size_of sh) |}.

(** [a.reshape(newshape)]: same buffer, new shape, sizes must agree. *)
Definition ndarray_reshape (a : ndarray) (newshape : list nat) : result ndarray :=
  if size_of (shape a) =? size_of newshape
  then Return {| shape := newshape; data := data a |}
  else Raise (ValueError "total size of new array must be unchanged").

(** The [i]-th block of [sz] consecutive elements of a buffer. *)
Definition block (sz i : nat) (l : list Q) : list Q := firstn sz (skipn (i * sz) l).

(** [np.concatenate(arrs, axis)]: every array is compared with the first;
    the number of dimensions and every extent but the one along [axis]
    must agree. *)
Definition dims_mismatch : string :=
  "all the input array dimensions except for the concatenation axis must match exactly".

Definition concat_ok (axis : nat) (ref : list nat) (a : ndarray) : result unit :=
  if negb (length (shape a) =? length ref)
  then Raise (ValueError "all the input arrays must have same number of dimensions")
  else if negb (shape_eqb (firstn axis (shape a)) (firstn axis ref)
                && shape_eqb (skipn (S axis) (shape a)) (skipn (S axis) ref))
  then Raise (ValueError dims_mismatch)
  else Return tt.

Definition np_concatenate (arrs : list ndarray) (axis : nat) : result ndarray :=
  match arrs with
  | [] => Raise (ValueError "need at least one array to concatenate")
  | a0 :: _ =>
      if negb (axis <? length (shape a0))
      then Raise (ValueError "axis out of bounds")
      else
        let* _ := mapM (concat_ok axis (shape a0)) arrs in
        let outer := size_of (firstn axis (shape a0)) in
        let inner := size_of (skipn (S axis) (shape a0)) in
        let extent (a : ndarray) := nth axis (shape a) 0 in
        Return {|
          shape := firstn axis (shape a0)
                   ++ fold_right Nat.add 0 (map extent arrs)
                   :: skipn (S axis) (shape a0);
          data := flat_map (fun i =>
                    flat_map (fun a => block (extent a * inner) i (data a)) arrs)
                    (seq 0 outer)
        |}
  end.

(** [np.atleast_1d], [np.atleast_2d] *)
Definition atleast_1d (a : ndarray) : ndarray :=
  match shape a with
  | [] => {| shape := [1]; data := data a |}
  | _ => a
  end.

Definition atleast_2d (a : ndarray) : ndarray :=
  match shape a with
  | [] => {| shape := [1; 1]; data := data a |}
  | [n] => {| shape := [1; n]; data := data a |}
  | _ => a
  end.

(** [np.vstack(tup)] *)
Definition np_vstack (tup : list ndarray) : result ndarray :=
  np_concatenate (map atleast_2d tup) 0.

(** [np.hstack(tup)] *)
Definition np_hstack (tup : list ndarray) : result ndarray :=
  let arrs := map atleast_1d tup in
  match arrs with
  | a0 :: _ =>
      if length (shape a0) =? 1 then np_concatenate arrs 0 else np_concatenate arrs 1
  | [] => np_concatenate arrs 1
  end.

(** [image[:, :, 0]] on a three-dimensional array. *)
Definition getitem_channel0 (image : ndarray) : result ndarray :=
  match shape image with
  | [h; w; c] =>
      if c =? 0
      then Raise (IndexError "index 0 is out of bounds for axis 2 with size 0")
      else Return {| shape := [h; w];
                     data := map (fun k => nth (k * c + 0) (data image) 0%Q)
                                 (seq 0 (h * w)) |}
  | _ => Raise (IndexError "too many indices for array")
  end.

(** [a, b = t] *)
Definition unpack2 (t : list nat) : result (nat * nat) :=
  match t with
  | [a; b] => Return (a, b)
  | [] => Raise (ValueError "need more than 0 values to unpack")
  | [_] => Raise (ValueError "need more than 1 value to unpack")
  | _ => Raise (ValueError "too many values to unpack")
  end.

(** ** The image normaliser *)

Definition _reshape (image : ndarray) (height width : nat) : result ndarray :=
  let desired_shape := [height; width] in
  let* image :=
    if negb (shape_eqb (shape image) desired_shape) then
      let* (actual_height, actual_width) := unpack2 (firstn 2 (shape image)) in
      if length (shape image) =? 3 then
        getitem_channel0 image
      else if actual_height <? height then
        let padding := np_zeros [height - actual_height; width] in
        np_vstack [image; padding]
      else if actual_width <? width then
        let padding := np_zeros [height; width - actual_width] in
        np_hstack [image; padding]
      else
        Raise (ValueError ("unhandled resizing case: " ++ str_tuple (shape image)))
    else Return image in
  ndarray_reshape image [1; height * width].

(** ** Arithmetic on arrays used by [compute_eigenfaces] *)

(** [np.mean(m, axis=0)]: the mean over the leading axis. *)
Definition np_mean_axis0 (m : ndarray) : result ndarray :=
  match shape m with
  | n :: rest =>
      let inner := size_of rest in
      Return {| shape := rest;
                data := map (fun j =>
                          Qdiv (fold_right Qplus 0%Q
                                  (map (fun i => nth (i * inner + j) (data m) 0%Q) (seq 0 n)))
                               (inject_Z (Z.of_nat n)))
                          (seq 0 inner) |}
  | [] => Raise (ValueError "axis 0 is out of bounds for array of dimension 0")
  end.

(** Iteration over an array: its slices along the leading axis. *)
Definition iter_axis0 (a : ndarray) : list ndarray :=
  match shape a with
  | n :: rest =>
      map (fun i => {| shape := rest; data := block (size_of rest) i (data a) |}) (seq 0 n)
  | [] => []
  end.

Fixpoint zip_with_Q (f : Q -> Q -> Q) (xs ys : list Q) : list Q :=
  match xs, ys with
  | x :: xs', y :: ys' => f x y :: zip_with_Q f xs' ys'
  | _, _ => []
  end.

(** [a - b] for two arrays of one shape (the only case the script has:
    both operands are [(height, width)] images), elementwise. *)
Definition ndarray_sub (a b : ndarray) : ndarray :=
  {| shape := shape a; data := zip_with_Q Qminus (data a) (data b) |}.

(** ** The fitted model

    The attributes of the [RandomizedPCA] object the script reads, and
    the mean the object keeps for later projection. *)
Record RandomizedPCA : Type := mk_pca {
  n_components : nat;
  components_ : ndarray;
  explained_variance_ratio_ : list Q;
  mean_ : ndarray
}.

(** ** Configuration *)

Record config : Type := mk_config {
  DATA_OUT : string;
  NUM_EIGENFACES : nat;
  IMAGE_HEIGHT : nat;
  IMAGE_WIDTH : nat
}.

Definition default_config : config :=
  {| DATA_OUT := "data/eigenfaces";
     NUM_EIGENFACES := 50;
     IMAGE_HEIGHT := 100;
     IMAGE_WIDTH := 100 |}.

(** ** File names *)

Definition round_half_even (x : Q) : Z :=
  let f := Qfloor x in
  match Qcompare (x - inject_Z f) (1 # 2) with
  | Lt => f
  | Gt => (f + 1)%Z
  | Eq => if Z.even f then f else (f + 1)%Z
  end.

(** The exponent [e] with [2 ^ e <= |q| < 2 ^ (e + 1)], for [q] other
    than zero. *)
Definition binade (q : Q) : Z :=
  let c := (Z.log2 (Z.abs (Qnum q)) - Z.log2 (Zpos (Qden q)))%Z in
  if Qle_bool (Qpower 2 c) (Qabs q) then c else (c - 1)%Z.

(** The double nearest to [q], ties to the even significand: 53 bits
    of significand, exponents from -1022 on (gradual underflow).
    Overflow to infinity is not modelled; it does not arise for a ratio
    times 100. *)
Definition round_binary64 (q : Q) : Q :=
  if Qeq_bool q 0 then 0%Q
  else
    let ulp := Qpower 2 (Z.max (binade q) (-1022) - 52) in
    let m := inject_Z (round_half_even (Qabs q / ulp)) in
    if Qlt_le_dec q 0 then (- (m * ulp))%Q else (m * ulp)%Q.

(** [x * y] on floats: the exact product, rounded. *)
Definition float_mul (x y : Q) : Q := round_binary64 (x * y).

(** The number of ten-thousandths ['%.4f' % x] prints (sign apart). *)
Definition fixed4 (x : Q) : Z := round_half_even (Qabs x * 10000).

Definition digit_of (n : Z) : string :=
  String (digit_char (Z.to_nat (n mod 10))) "".

(** ['%.4f' % x] *)
Definition format_4f (x : Q) : string :=
  let n := fixed4 x in
  (if Qlt_le_dec x 0 then "-" else "")
  ++ str_N (Z.to_N (n / 10000)) ++ "."
  ++ digit_of (n / 1000) ++ digit_of (n / 100) ++ digit_of (n / 10) ++ digit_of n.

Definition startswith_slash (s : string) : bool :=
  match s with
  | String c _ => Ascii.eqb c "/"
  | EmptyString => false
  end.

Fixpoint endswith_slash (s : string) : bool :=
  match s with
  | EmptyString => false
  | String c EmptyString => Ascii.eqb c "/"
  | String _ s' => endswith_slash s'
  end.

(** [os.path.join(a, b)] *)
Definition os_path_join (a b : string) : string :=
  if startswith_slash b then b
  else if String.eqb a "" || endswith_slash a then a ++ b
  else a ++ "/" ++ b.

(** [p[:p.rfind('/') + 1]] *)
Fixpoint up_to_last_slash (p : string) : string :=
  match p with
  | EmptyString => EmptyString
  | String c p' =>
      match up_to_last_slash p' with
      | EmptyString => if Ascii.eqb c "/" then String c EmptyString else EmptyString
      | String c' t => String c (String c' t)
      end
  end.

(** [s == '/' * len(s)] *)
Fixpoint only_slashes (s : string) : bool :=
  match s with
  | EmptyString => true
  | String c s' => Ascii.eqb c "/" && only_slashes s'
  end.

(** [s.rstrip('/')] *)
Fixpoint rstrip_slashes (s : string) : string :=
  match s with
  | EmptyString => EmptyString
  | String c s' =>
      match rstrip_slashes s' with
      | EmptyString => if Ascii.eqb c "/" then EmptyString else String c EmptyString
      | String c' t => String c (String c' t)
      end
  end.

(** [os.path.dirname(p)] *)
Definition os_path_dirname (p : string) : string :=
  let head := up_to_last_slash p in
  if negb (String.eqb head "") && negb (only_slashes head)
  then rstrip_slashes head
  else head.

(** ** The output store

    What the script leaves on disk: a rendered image or the pickled,
    compressed model, by path.  A computation that reads or writes files
    takes the store and hands it back with its result. *)
Inductive file : Type :=
| Png (matrix : ndarray)
| PickleGz (obj : RandomizedPCA).

Definition IO (A : Type) : Type := gmap string file -> result A * gmap string file.

Definition io_bind {A B : Type} (c : IO A) (k : A -> IO B) : IO B :=
  fun fs =>
    match c fs with
    | (Return a, fs') => k a fs'
    | (Raise e, fs') => (Raise e, fs')
    end.

Definition lift {A : Type} (r : result A) : IO A := fun fs => (r, fs).

Notation "'do' x '<-' c ';' k" := (io_bind c (fun x => k))
  (at level 10, x pattern, c at level 100, k at level 200).

(** [for x in xs: body(x)] *)
Fixpoint for_each {A : Type} (body : A -> IO unit) (xs : list A) : IO unit :=
  match xs with
  | [] => lift (Return tt)
  | x :: xs' => do _ <- body x; for_each body xs'
  end.

(** [enumerate(xs, start)] *)
Fixpoint enumerate {A : Type} (start : nat) (xs : list A) : list (nat * A) :=
  match xs with
  | [] => []
  | x :: xs' => (start, x) :: enumerate (S start) xs'
  end.

(** ** The pipeline *)

Section Pipeline.

(** [matplotlib.image.imread] *)
Variable imread : string -> result ndarray.

(** [RandomizedPCA(n_components=k).fit(X)] *)
Variable fit : nat -> ndarray -> result RandomizedPCA.

(** [os.makedirs(dirname)] *)
Variable os_makedirs : string -> IO unit.

(** [matplotlib.image.imsave(path, matrix, cmap=cmap)] *)
Variable imsave : string -> ndarray -> string -> IO unit.

(** [with gzip.open(path, 'wb') as gzip_file: pickle.dump(obj, gzip_file)] *)
Variable pickle_dump_gz : RandomizedPCA -> string -> IO unit.

Definition _makedirs (dirname : string) : IO unit :=
  fun fs =>
    match os_makedirs dirname fs with
    | (Raise (OSError errno msg), fs') =>
        if (errno =? EEXIST)%Z then (Return tt, fs')
        else (Raise (OSError errno msg), fs')
    | outcome => outcome
    end.

Definition _imsave (path : string) (matrix : ndarray) : IO unit :=
  do _ <- _makedirs (os_path_dirname path);
  imsave path matrix "gray".

Definition _serialize (obj : RandomizedPCA) (path : string) : IO unit :=
  do _ <- _makedirs (os_path_dirname path);
  pickle_dump_gz obj path.

Definition compute_eigenfaces (image_paths : list string)
    (n_eigenfaces width height : nat)
  : result (ndarray * list (ndarray * Q) * RandomizedPCA) :=
  let* rows := mapM (fun path =>
                       let* image := imread path in
                       _reshape image height width) image_paths in
  let* image_matrix := np_vstack rows in
  let* pca := fit n_eigenfaces image_matrix in
  let* eigenvectors := ndarray_reshape (components_ pca) [n_eigenfaces; height; width] in
  let eigenvalues := explained_variance_ratio_ pca in
  let* mean_vector := np_mean_axis0 image_matrix in
  let* mean_face := ndarray_reshape mean_vector [height; width] in
  let eigenfaces := map (fun eigenvector => ndarray_sub eigenvector mean_face)
                        (iter_axis0 eigenvectors) in
  Return (mean_face, combine eigenfaces eigenvalues, pca).

Definition plot_eigenfaces (cfg : config) (image_paths : list string)
    (data_out : string) : IO unit :=
  do (mean_face, eigenfaces, pca) <-
    lift (compute_eigenfaces image_paths
            (NUM_EIGENFACES cfg) (IMAGE_WIDTH cfg) (IMAGE_HEIGHT cfg));
  let outpath := os_path_join data_out "mean-face.png" in
  do _ <- _imsave outpath mean_face;
  do _ <- for_each (fun '(i, (eigenface, eigenvalue)) =>
                      let outpath := os_path_join data_out
                                       (format_4f (float_mul eigenvalue 100) ++ "%.png") in
                      _imsave outpath eigenface)
                   (enumerate 1 eigenfaces);
  let outpath := os_path_join data_out "pca.pickle.gz" in
  _serialize pca outpath.

End Pipeline.

Open Scope list_scope.

(** ** The design document's view of an image

    The nested reading of a buffer, and the operations the design
    document names: flattening, padding with zero rows, taking a
    channel. *)

Fixpoint chunks {A : Type} (n count : nat) (l : list A) : list (list A) :=
  match count with
  | O => []
  | S count' => firstn n l :: chunks n count' (skipn n l)
  end.

(** The rows of a two-dimensional array. *)
Definition rows_of (a : ndarray) : list (list Q) :=
  match shape a with
  | [h; w] => chunks w h (data a)
  | _ => []
  end.

(** The rows of pixels of a three-dimensional array, each pixel the
    list of its channel values. *)
Definition pixels_of (a : ndarray) : list (list (list Q)) :=
  match shape a with
  | [h; w; c] => map (chunks c w) (chunks (w * c) h (data a))
  | _ => []
  end.

(** Row-major flattening. *)
Definition flatten (rows : list (list Q)) : list Q := concat rows.

(** Vertical padding at the bottom with [delta] rows of [width] zeros. *)
Definition pad_bottom (delta width : nat) (rows : list (list Q)) : list (list Q) :=
  rows ++ repeat (repeat 0%Q width) delta.

(** Channel [k] of an image given by its pixels. *)
Definition channel (k : nat) (pixels : list (list (list Q))) : list (list Q) :=
  map (map (fun px => nth k px 0%Q)) pixels.

(** The shapes the two padding rules (or no rule at all) reconcile
    with the target. *)
Definition reconcilable (h w height width : nat) : Prop :=
  (h = height /\ w = width) \/ (h < height /\ w = width) \/ (h = height /\ w < width).

(** ** The stages of the pipeline, as the design document names them *)

(** Loading and normalising one image, as the list comprehension of
    [compute_eigenfaces] does for each path in turn. *)
Definition load (imread : string -> result ndarray) (height width : nat)
    (path : string) : result ndarray :=
  let* image := imread path in _reshape image height width.

(** The [i]-th direction vector of a fitted model, of length [d]. *)
Definition direction (d : nat) (pca : RandomizedPCA) (i : nat) : ndarray :=
  {| shape := [d]; data := block d i (data (components_ pca)) |}.

(** A vector laid out as a [height] by [width] image. *)
Definition as_image (height width : nat) (v : ndarray) : ndarray :=
  {| shape := [height; width]; data := data v |}.

Fixpoint non_increasing (rs : list Q) : Prop :=
  match rs with
  | r :: (r' :: _) as rest => (r' <= r)%Q /\ non_increasing rest
  | _ => True
  end.

(** The contract of the PCA engine for an [n] by [d] matrix and [k]
    requested components: a model comes back with [k] directions of
    length [d] and [k] explained-variance ratios, each non-negative, in
    non-increasing order, adding up to at most one. *)
Definition honours_contract (fit : nat -> ndarray -> result RandomizedPCA)
    (n d k : nat) : Prop :=
  forall X, shape X = [n; d] ->
    exists pca,
      fit k X = Return pca /\
      shape (components_ pca) = [k; d] /\
      length (explained_variance_ratio_ pca) = k /\
      non_increasing (explained_variance_ratio_ pca) /\
      Forall (fun r => (0 <= r)%Q) (explained_variance_ratio_ pca) /\
      (fold_right Qplus 0%Q (explained_variance_ratio_ pca) <= 1)%Q.

(** A file system that takes every write: a directory can be made or
    is there already, and an image or a model written to a path is from
    then on the file at that path. *)
Definition accepting
    (os_makedirs : string -> IO unit)
    (imsave : string -> ndarray -> string -> IO unit)
    (pickle_dump_gz : RandomizedPCA -> string -> IO unit) : Prop :=
  (forall dirname fs,
      os_makedirs dirname fs = (Return tt, fs) \/
      exists msg, os_makedirs dirname fs = (Raise (OSError EEXIST msg), fs)) /\
  (forall path matrix cmap fs,
      imsave path matrix cmap fs = (Return tt, <[path := Png matrix]> fs)) /\
  (forall obj path fs,
      pickle_dump_gz obj path fs = (Return tt, <[path := PickleGz obj]> fs)).

(** The name under which an eigenface with a given share is saved. *)
Definition share_filename (eigenvalue : Q) : string :=
  (format_4f (float_mul eigenvalue 100) ++ "%.png")%string.

Definition sign_or_digit (c : ascii) : bool :=
  Ascii.eqb c "-" || ((48 <=? nat_of_ascii c) && (nat_of_ascii c <=? 57)).

(** The store after the eigenfaces were saved, one after the other. *)
Definition write_eigenfaces (data_out : string) (eigenfaces : list (ndarray * Q))
    (fs : gmap string file) : gmap string file :=
  fold_left (fun fs '(eigenface, eigenvalue) =>
               <[os_path_join data_out (share_filename eigenvalue) := Png eigenface]> fs)
            eigenfaces fs.

(** ** Sample inputs *)

Fixpoint ramp_data (count : nat) (value step : Z) : list Q :=
  match count with
  | O => []
  | S count' => inject_Z (value mod 256) :: ramp_data count' (value + step)%Z step
  end.

(** An image of a given shape with pixel [k] of its buffer set to
    [k * step mod 256]. *)
Definition ramp (sh : list nat) (step : Z) : ndarray :=
  {| shape := sh; data := ramp_data (size_of sh) 0 step |}.

(** An image of a given shape, black but for pixel [k] of its buffer. *)
Definition dot (sh : list nat) (k : nat) : ndarray :=
  {| shape := sh; data := repeat 0%Q k ++ [1%Q] ++ repeat 0%Q (size_of sh - k - 1) |}.

(** A directory of images: [a.png], [b.png], [c.png] are 100 by 100 and
    differ from one another in two pixels, so that they lie at equal
    distances from their mean and from each other and the two principal
    variances of the corpus are equal; [tall.png] and [tall2.png] hold
    one and the same 120 by 100 image; [small-*.png] are tiny. *)
Definition sample_imread (path : string) : result ndarray :=
  if String.eqb path "a.png" then Return (dot [100; 100] 0)
  else if String.eqb path "b.png" then Return (dot [100; 100] 1)
  else if String.eqb path "c.png" then Return (dot [100; 100] 2)
  else if String.eqb path "tall.png" then Return (ramp [120; 100] 1)
  else if String.eqb path "tall2.png" then Return (ramp [120; 100] 1)
  else if String.eqb path "small-a.png" then Return (ramp [2; 2] 1)
  else if String.eqb path "small-b.png" then Return (ramp [2; 2] 3)
  else if String.eqb path "small-c.png" then Return (ramp [1; 2] 5)
  else Raise (IOError ("No such file or directory: " ++ path)%string).

(** A stand-in for the engine, for closed instances: the first
    [min(k, N, D)] rows of the matrix serve as directions and the given
    shares as explained-variance ratios. *)
Definition sample_fit (shares : list Q) (k : nat) (X : ndarray) : result RandomizedPCA :=
  match shape X with
  | [n; d] =>
      let k' := Nat.min k (Nat.min n d) in
      Return {| n_components := k;
                components_ := {| shape := [k'; d]; data := firstn (k' * d) (data X) |};
                explained_variance_ratio_ := firstn k' shares;
                mean_ := {| shape := [d]; data := firstn d (data X) |} |}
  | _ => Raise (ValueError "Expected 2D array")
  end.

(** An output directory that is made by the first call and found in
    place once the store holds a file. *)
Definition sample_makedirs (dirname : string) : IO unit :=
  fun fs =>
    if decide (size fs = 0) then (Return tt, fs)
    else (Raise (OSError EEXIST "File exists"), fs).

Definition sample_imsave (path : string) (matrix : ndarray) (cmap : string) : IO unit :=
  fun fs => (Return tt, <[path := Png matrix]> fs).

Definition sample_dump (obj : RandomizedPCA) (path : string) : IO unit :=
  fun fs => (Return tt, <[path := PickleGz obj]> fs).

Definition two_components : config :=
  {| DATA_OUT := "data/eigenfaces";
     NUM_EIGENFACES := 2;
     IMAGE_HEIGHT := 100;
     IMAGE_WIDTH := 100 |}.

(** ** The design document's wording, where the script departs from it *)

(** C1 as the design document words it: the exception of a refused
    image tells which shape was expected. *)
Definition refusal_names_expected_shape : Prop :=
  exists expected_of : exn -> nat * nat,
    forall image h w height width e,
      shape image = [h; w] ->
      ~ reconcilable h w height width ->
      _reshape image height width = Raise e ->
      expected_of e = (height, width).

(** C3 as the design document words it: an image short of the target
    height is padded and returned, whatever its width. *)
Definition pads_rows_whatever_the_width : Prop :=
  forall image h w height width delta,
    wf image ->
    shape image = [h; w] ->
    h + delta = height ->
    _reshape image height width =
      Return {| shape := [1; height * width];
                data := flatten (pad_bottom delta width (rows_of image)) |}.

(** C5 as the design document words it: the exception of a run that
    met a 120 by 100 image tells the path of that image. *)
Definition failure_cites_path : Prop :=
  exists path_of : exn -> string,
    forall imread fit os_makedirs imsave pickle_dump_gz
           cfg image_paths data_out fs p image e fs',
      IMAGE_HEIGHT cfg = 100 ->
      IMAGE_WIDTH cfg = 100 ->
      In p image_paths ->
      imread p = Return image ->
      shape image = [120; 100] ->
      plot_eigenfaces imread fit os_makedirs imsave pickle_dump_gz
        cfg image_paths data_out fs = (Raise e, fs') ->
      path_of e = p.

(** C6 as the design document words it: a run over three images of the
    target shape with two components, on a file system that takes every
    write, fills an empty output directory with exactly four files, two
    of them eigenfaces. *)
Definition leaves_four_files : Prop :=
  forall imread fit os_makedirs imsave pickle_dump_gz
         cfg p1 p2 p3 i1 i2 i3 data_out fs',
    accepting os_makedirs imsave pickle_dump_gz ->
    NUM_EIGENFACES cfg = 2 -> IMAGE_HEIGHT cfg = 100 -> IMAGE_WIDTH cfg = 100 ->
    imread p1 = Return i1 -> imread p2 = Return i2 -> imread p3 = Return i3 ->
    shape i1 = [100; 100] -> shape i2 = [100; 100] -> shape i3 = [100; 100] ->
    honours_contract fit 3 (100 * 100) 2 ->
    plot_eigenfaces imread fit os_makedirs imsave pickle_dump_gz
      cfg [p1; p2; p3] data_out ∅ = (Return tt, fs') ->
    size fs' = 4.

(** ** The other functions of the script *)

(** [_load_image_as_vector].  The names [width] and [height] are the
    script's own; they receive the two extents of the image in the order
    of its shape. *)
Definition _load_image_as_vector (imread : string -> result ndarray) (path : string)
  : result (nat * nat * ndarray) :=
  let* image := imread path in
  let* (width, height) := unpack2 (shape image) in
  let* vector := ndarray_reshape image [1; width * height] in
  Return ((width, height), vector).

Definition newline : ascii := "010"%char.

(** [s.rstrip('\n')] *)
Fixpoint rstrip_newlines (s : string) : string :=
  match s with
  | EmptyString => EmptyString
  | String c s' =>
      match rstrip_newlines s' with
      | EmptyString => if Ascii.eqb c newline then EmptyString else String c EmptyString
      | String c' t => String c (String c' t)
      end
  end.

(** [_log(message, channel)], with the time stamp
    [datetime.datetime.now().strftime('%F%T')] given as [now] and the
    channel as the text written to it so far. *)
Definition _log (now message channel : string) : string :=
  (channel ++ "[" ++ now ++ "] " ++ rstrip_newlines message ++ String newline "")%string.

(** ** Vocabulary for the further properties *)

(** The shapes [_reshape] accepts for a target. *)
Definition normalisable (sh : list nat) (height width : nat) : Prop :=
  match sh with
  | [h; w] => reconcilable h w height width
  | [h; w; c] => c <> 0 /\ h * w = height * width
  | _ => False
  end.

(** Horizontal padding on the right with [delta] zeros per row. *)
Definition pad_right (delta : nat) (rows : list (list Q)) : list (list Q) :=
  map (fun row => row ++ repeat 0%Q delta) rows.

(** The sum of the entries at position [j] of a list of vectors. *)
Definition column_sum (j : nat) (rows : list ndarray) : Q :=
  fold_right Qplus 0%Q (map (fun r => nth j (data r) 0%Q) rows).

(** A string made of newline characters only. *)
Fixpoint only_newlines (s : string) : bool :=
  match s with
  | EmptyString => true
  | String c s' => Ascii.eqb c newline && only_newlines s'
  end.

(** The last character of a string. *)
Fixpoint last_char (s : string) : option ascii :=
  match s with
  | EmptyString => None
  | String c EmptyString => Some c
  | String _ s' => last_char s'
  end.

(** [reconcilable], decided. *)
Definition reconcilableb (h w height width : nat) : bool :=
  ((h =? height) && (w =? width))
  || ((h <? height) && (w =? width))
  || ((h =? height) && (w <? width)).

(** What [_reshape] answers, read off the shape of the image alone:
    [None] for a vector, [Some] of the exception otherwise. *)
Definition _reshape_outcome (sh : list nat) (height width : nat) : option exn :=
  match sh with
  | [h; w] =>
      if reconcilableb h w height width then None
      else if (h <? height) || (w <? width) then Some (ValueError dims_mismatch)
      else Some (ValueError ("unhandled resizing case: " ++ str_tuple sh)%string)
  | [h; w; c] =>
      if c =? 0 then Some (IndexError "index 0 is out of bounds for axis 2 with size 0")
      else if h * w =? height * width then None
      else Some (ValueError "total size of new array must be unchanged")
  | [] => Some (ValueError "need more than 0 values to unpack")
  | [_] => Some (ValueError "need more than 1 value to unpack")
  | h :: w :: _ =>
      if (h <? height) || (w <? width)
      then Some (ValueError "all the input arrays must have same number of dimensions")
      else Some (ValueError ("unhandled resizing case: " ++ str_tuple sh)%string)
  end.

(** A configuration for tiny images: two components, a 2 by 2 target. *)
Definition small_config : config :=
  {| DATA_OUT := "data/eigenfaces";
     NUM_EIGENFACES := 2;
     IMAGE_HEIGHT := 2;
     IMAGE_WIDTH := 2 |}.

(** A directory in which every file is one 2 by 2 colour image. *)
Definition colour_imread (path : string) : result ndarray :=
  Return (ramp [2; 2; 3] 1).

(** An engine that is out of order. *)
Definition failing_fit (k : nat) (X : ndarray) : result RandomizedPCA :=
  Raise (ValueError "array must not contain infs or NaNs").

(** ** Reading printed numbers back *)

(** The value of a decimal digit. *)
Definition digit_value (c : ascii) : option N :=
  let n := N_of_ascii c in
  if ((48 <=? n) && (n <=? 57))%N then Some (n - 48)%N else None.

(** The number a string of decimal digits denotes, read from the left
    and continuing from [acc]. *)
Fixpoint decimal_from (acc : N) (s : string) : option N :=
  match s with
  | EmptyString => Some acc
  | String c s' =>
      match digit_value c with
      | Some d => decimal_from (acc * 10 + d) s'
      | None => None
      end
  end.

Definition decimal_value (s : string) : option N :=
  match s with
  | EmptyString => None
  | _ => decimal_from 0 s
  end.

(** A string cut at its first dot. *)
Fixpoint split_at_dot (s : string) : option (string * string) :=
  match s with
  | EmptyString => None
  | String c s' =>
      if Ascii.eqb c "." then Some (EmptyString, s')
      else match split_at_dot s' with
           | Some (int_part, frac_part) => Some (String c int_part, frac_part)
           | None => None
           end
  end.

(** A number printed with four decimals and no sign, read back as a
    count of ten-thousandths. *)
Definition read_unsigned_4f (body : string) : option N :=
  match split_at_dot body with
  | Some (int_part, frac_part) =>
      if String.length frac_part =? 4 then
        match decimal_value int_part, decimal_value frac_part with
        | Some i, Some f => Some (i * 10000 + f)%N
        | _, _ => None
        end
      else None
  | None => None
  end.

(** A number printed with four decimals, read back: whether it carries
    a minus sign, and how many ten-thousandths it counts. *)
Definition read_4f (s : string) : option (bool * N) :=
  match s with
  | String c t =>
      if Ascii.eqb c "-" then option_map (pair true) (read_unsigned_4f t)
      else option_map (pair false) (read_unsigned_4f s)
  | EmptyString => None
  end.

(** ** Vocabulary for the writers *)

(** A name without a slash. *)
Fixpoint slash_free (s : string) : bool :=
  match s with
  | EmptyString => true
  | String c s' => negb (Ascii.eqb c "/") && slash_free s'
  end.

(** An exception other than the [OSError] of an existing file. *)
Definition not_EEXIST (e : exn) : Prop :=
  match e with
  | OSError errno _ => errno <> EEXIST
  | _ => True
  end.

(** [os.makedirs] refusing the empty name, as it does, and making any
    other directory. *)
Definition strict_makedirs (dirname : string) : IO unit :=
  fun fs =>
    if String.eqb dirname "" then (Raise (OSError 2 "No such file or directory"), fs)
    else (Return tt, fs).

(** * Properties

    ** Lists and buffers *)

Lemma shape_eqb_eq (s t : list nat) : shape_eqb s t = true <-> s = t.
Proof.
  revert t; induction s as [|x s IH]; intros [|y t]; simpl; split; intros E;
    try discriminate; try reflexivity.
  - apply andb_true_iff in E as [E1 E2]. apply Nat.eqb_eq in E1.
    apply IH in E2. congruence.
  - injection E as -> ->. rewrite Nat.eqb_refl. simpl. now apply IH.
Qed.

Lemma shape_eqb_neq (s t : list nat) : s <> t -> shape_eqb s t = false.
Proof.
  intros N. destruct (shape_eqb s t) eqn:E; [|reflexivity].
  apply shape_eqb_eq in E. contradiction.
Qed.

Lemma block_0_all (sz : nat) (l : list Q) : length l = sz -> block sz 0 l = l.
Proof. intros <-. unfold block. simpl. apply firstn_all. Qed.

Lemma concat_chunks {A : Type} (n count : nat) (l : list A) :
  length l = count * n -> concat (chunks n count l) = l.
Proof.
  revert l; induction count as [|c IH]; intros l E; simpl in *.
  - now destruct l.
  - rewrite IH.
    + apply firstn_skipn.
    + rewrite length_skipn. lia.
Qed.

Lemma concat_repeat_repeat {A : Type} (x : A) (n m : nat) :
  concat (repeat (repeat x n) m) = repeat x (m * n).
Proof.
  induction m as [|m IH]; simpl; [reflexivity|].
  now rewrite IH, repeat_app.
Qed.

Lemma chunks_add {A : Type} (n a b : nat) (l : list A) :
  chunks n (a + b) l = chunks n a l ++ chunks n b (skipn (a * n) l).
Proof.
  revert l; induction a as [|a IH]; intros l; simpl; [reflexivity|].
  f_equal. rewrite IH. f_equal. f_equal. rewrite skipn_skipn. f_equal. lia.
Qed.

Lemma chunks_firstn {A : Type} (n a : nat) (l : list A) :
  chunks n a (firstn (a * n) l) = chunks n a l.
Proof.
  revert l; induction a as [|a IH]; intros l; simpl; [reflexivity|].
  rewrite firstn_firstn, Nat.min_l by lia. f_equal.
  rewrite skipn_firstn_comm.
  replace (n + a * n - n) with (a * n) by lia. apply IH.
Qed.

Lemma chunks_chunks {A : Type} (c w h : nat) (l : list A) :
  concat (map (chunks c w) (chunks (w * c) h l)) = chunks c (h * w) l.
Proof.
  revert l; induction h as [|h IH]; intros l; simpl; [reflexivity|].
  rewrite IH, chunks_add, chunks_firstn. reflexivity.
Qed.

Lemma nth_skipn_add {A : Type} (n k : nat) (l : list A) (d : A) :
  nth k (skipn n l) d = nth (n + k) l d.
Proof.
  revert l; induction n as [|n IH]; intros l; simpl; [reflexivity|].
  destruct l as [|x l]; [now destruct k|]. apply IH.
Qed.

Lemma nth_firstn_lt {A : Type} (n k : nat) (l : list A) (d : A) :
  k < n -> nth k (firstn n l) d = nth k l d.
Proof.
  revert k l; induction n as [|n IH]; intros k l Hk; [lia|].
  destruct l as [|x l]; [reflexivity|]. destruct k as [|k]; simpl; [reflexivity|].
  apply IH. lia.
Qed.

Lemma map_nth_chunks {A : Type} (c m k : nat) (l : list A) (d : A) :
  k < c ->
  map (fun px => nth k px d) (chunks c m l) = map (fun i => nth (i * c + k) l d) (seq 0 m).
Proof.
  intros Hk. revert l; induction m as [|m IH]; intros l; [reflexivity|].
  cbn [chunks map seq]. f_equal.
  - now rewrite nth_firstn_lt.
  - rewrite IH, <- seq_shift, map_map. apply map_ext. intros i.
    rewrite nth_skipn_add. f_equal. lia.
Qed.

Lemma ramp_data_length (count : nat) (value step : Z) :
  length (ramp_data count value step) = count.
Proof.
  revert value; induction count as [|count IH]; intros value; cbn; [reflexivity|].
  now rewrite IH.
Qed.

Lemma ramp_wf (sh : list nat) (step : Z) : wf (ramp sh step).
Proof. unfold wf, ramp. cbn [shape data]. apply ramp_data_length. Qed.

(** ** The nested reading of a buffer *)

Lemma nth_chunks {A : Type} (n count i : nat) (l : list A) :
  i < count -> nth i (chunks n count l) [] = firstn n (skipn (i * n) l).
Proof.
  revert i l; induction count as [|c IH]; intros i l Hi; [lia|].
  destruct i as [|i]; cbn [chunks nth]; [reflexivity|].
  rewrite IH by lia. rewrite skipn_skipn. do 2 f_equal. lia.
Qed.

Lemma nth_error_block {A : Type} (n o j : nat) (l : list A) :
  j < n -> nth_error (firstn n (skipn o l)) j = nth_error l (o + j).
Proof.
  intros Hj. rewrite nth_error_firstn.
  destruct (Nat.ltb_spec j n); [|lia]. apply nth_error_skipn.
Qed.

(** The nested readings agree with indexing: row [i], column [j] (and
    channel [k]) of the view is [a[i, j]] (resp. [a[i, j, k]]). *)
Lemma rows_of_item (a : ndarray) (h w i j : nat) :
  shape a = [h; w] -> i < h -> j < w ->
  nth_error (nth i (rows_of a) []) j = item a [i; j].
Proof.
  intros Hs Hi Hj. unfold rows_of, item. rewrite Hs.
  rewrite nth_chunks, nth_error_block by assumption.
  cbn [offset_from].
  destruct (Nat.ltb_spec i h); [|lia]. destruct (Nat.ltb_spec j w); [|lia].
  f_equal.
Qed.

Lemma chunks_length {A : Type} (n count : nat) (l : list A) :
  length (chunks n count l) = count.
Proof.
  revert l; induction count as [|c IH]; intros l; cbn [chunks length]; [reflexivity|].
  now rewrite IH.
Qed.

Lemma nth_map_lt {A B : Type} (f : A -> B) (l : list A) (i : nat) (d : B) (d' : A) :
  i < length l -> nth i (map f l) d = f (nth i l d').
Proof.
  revert i; induction l as [|x l IH]; intros i Hi; cbn in *; [lia|].
  destruct i as [|i]; [reflexivity|]. apply IH. lia.
Qed.

Lemma pixels_of_item (a : ndarray) (h w c i j k : nat) :
  shape a = [h; w; c] -> i < h -> j < w -> k < c ->
  nth_error (nth j (nth i (pixels_of a) []) []) k = item a [i; j; k].
Proof.
  intros Hs Hi Hj Hk. unfold pixels_of, item. rewrite Hs.
  rewrite (nth_map_lt _ _ _ _ []) by (rewrite chunks_length; assumption).
  rewrite !nth_chunks, !nth_error_block by (assumption || nia).
  cbn [offset_from].
  destruct (Nat.ltb_spec i h); [|lia]. destruct (Nat.ltb_spec j w); [|lia].
  destruct (Nat.ltb_spec k c); [|lia].
  f_equal. nia.
Qed.

(** ** The normaliser, branch by branch *)

Lemma size_of_flat (h w : nat) : (size_of [h; w] =? size_of [1; h * w]) = true.
Proof. apply Nat.eqb_eq. unfold size_of. simpl. lia. Qed.

Lemma np_vstack_two (a b : ndarray) (h k w : nat) :
  wf a -> wf b -> shape a = [h; w] -> shape b = [k; w] ->
  np_vstack [a; b] = Return {| shape := [h + (k + 0); w]; data := data a ++ data b |}.
Proof.
  destruct a as [sa da], b as [sb db]. unfold wf. cbn [shape data].
  intros Wa Wb -> ->.
  unfold np_vstack, np_concatenate, atleast_2d.
  cbn [map length Nat.ltb Nat.leb negb mapM concat_ok firstn skipn shape data Nat.eqb
       shape_eqb andb bind nth fold_right size_of seq flat_map].
  rewrite Nat.eqb_refl. cbn [andb negb bind app].
  rewrite !block_0_all; [now rewrite !app_nil_r | |].
  - rewrite Wb. unfold size_of. simpl. lia.
  - rewrite Wa. unfold size_of. simpl. lia.
Qed.

Lemma np_vstack_mismatch (a b : ndarray) (h w k w' : nat) :
  shape a = [h; w] -> shape b = [k; w'] -> w <> w' ->
  np_vstack [a; b] = Raise (ValueError dims_mismatch).
Proof.
  destruct a as [sa da], b as [sb db]. cbn [shape]. intros -> -> N.
  unfold np_vstack, np_concatenate, atleast_2d.
  cbn [map length Nat.ltb Nat.leb negb mapM concat_ok firstn skipn shape data Nat.eqb
       shape_eqb andb bind].
  rewrite Nat.eqb_refl.
  assert (E : (w' =? w) = false) by (apply Nat.eqb_neq; congruence).
  rewrite E. reflexivity.
Qed.

Lemma np_hstack_mismatch (a b : ndarray) (h w h' k : nat) :
  shape a = [h; w] -> shape b = [h'; k] -> h <> h' ->
  np_hstack [a; b] = Raise (ValueError dims_mismatch).
Proof.
  destruct a as [sa da], b as [sb db]. cbn [shape]. intros -> -> N.
  unfold np_hstack, np_concatenate, atleast_1d.
  cbn [map length Nat.ltb Nat.leb negb mapM concat_ok firstn skipn shape data Nat.eqb
       shape_eqb andb bind].
  rewrite Nat.eqb_refl.
  assert (E : (h' =? h) = false) by (apply Nat.eqb_neq; congruence).
  rewrite E. reflexivity.
Qed.

(** What [_reshape] does with a two-dimensional image, by the position
    of its shape relative to the target. *)
Lemma _reshape_2d (image : ndarray) (h w height width : nat) :
  shape image = [h; w] ->
  _reshape image height width =
    let* image' :=
      if negb (shape_eqb [h; w] [height; width]) then
        if h <? height then np_vstack [image; np_zeros [height - h; width]]
        else if w <? width then np_hstack [image; np_zeros [height; width - w]]
        else Raise (ValueError ("unhandled resizing case: " ++ str_tuple [h; w])%string)
      else Return image in
    ndarray_reshape image' [1; height * width].
Proof.
  intros Hs. unfold _reshape. rewrite Hs. cbn [firstn unpack2 length Nat.eqb].
  destruct (negb (shape_eqb [h; w] [height; width])); reflexivity.
Qed.

(** C1 (as amended).  A two-dimensional image whose shape neither equals
    the target nor falls under one of the two padding rules is refused:
    [_reshape] raises a [ValueError] and returns no vector, so nothing is
    cropped.  When neither extent is below the target, the exception is
    the script's own and its message names the actual shape, and nothing
    else; otherwise it is the one numpy raises on stacking arrays whose
    extents disagree. *)
Theorem reshape_refuses_unreconcilable (image : ndarray) (h w height width : nat) :
  shape image = [h; w] ->
  ~ reconcilable h w height width ->
  exists msg,
    _reshape image height width = Raise (ValueError msg) /\
    (height <= h -> width <= w ->
     msg = ("unhandled resizing case: " ++ str_tuple [h; w])%string) /\
    (h < height \/ w < width -> msg = dims_mismatch).
Proof.
  intros Hs NR. rewrite (_reshape_2d _ _ _ _ _ Hs).
  rewrite shape_eqb_neq.
  2:{ intros E. injection E as -> ->. apply NR. left. split; reflexivity. }
  cbn [negb].
  destruct (Nat.ltb_spec h height) as [Hh|Hh].
  - assert (w <> width) by (intros ->; apply NR; right; left; split; [lia|reflexivity]).
    rewrite (np_vstack_mismatch image (np_zeros [height - h; width]) h w (height - h) width
               Hs eq_refl) by assumption.
    eexists. split; [reflexivity|]. split; [lia|reflexivity].
  - destruct (Nat.ltb_spec w width) as [Hw|Hw].
    + assert (h <> height) by (intros ->; apply NR; right; right; split; [reflexivity|lia]).
      rewrite (np_hstack_mismatch image (np_zeros [height; width - w]) h w height (width - w)
                 Hs eq_refl) by assumption.
      eexists. split; [reflexivity|]. split; [lia|reflexivity].
    + eexists. split; [reflexivity|]. split; [reflexivity|lia].
Qed.

Lemma oversized_not_reconcilable (h w height width : nat) :
  height < h \/ width < w -> ~ reconcilable h w height width.
Proof. unfold reconcilable. lia. Qed.

Lemma both_mismatched_not_reconcilable (h w height width : nat) :
  h <> height -> w <> width -> ~ reconcilable h w height width.
Proof. unfold reconcilable. lia. Qed.

(** What [_reshape] does with a three-dimensional image: channel 0 is
    taken and reshaped, and only the number of elements is compared with
    the target. *)
Lemma _reshape_3d (image : ndarray) (h w c height width : nat) :
  shape image = [h; w; c] -> c <> 0 ->
  _reshape image height width =
    if h * w =? height * width
    then Return {| shape := [1; height * width];
                   data := flatten (channel 0 (pixels_of image)) |}
    else Raise (ValueError "total size of new array must be unchanged").
Proof.
  intros Hs C. unfold _reshape. rewrite Hs.
  rewrite shape_eqb_neq by discriminate.
  cbn [negb firstn unpack2 bind length Nat.eqb].
  unfold getitem_channel0, pixels_of. rewrite Hs.
  apply Nat.eqb_neq in C. rewrite C. cbn [bind].
  unfold ndarray_reshape. cbn [shape data].
  replace (size_of [h; w] =? size_of [1; height * width])
    with (h * w =? height * width)
    by (unfold size_of; cbn [fold_right]; f_equal; lia).
  destruct (h * w =? height * width); [|reflexivity].
  do 2 f_equal. unfold flatten, channel.
  rewrite <- concat_map, chunks_chunks, map_nth_chunks; [reflexivity|].
  apply Nat.eqb_neq in C. lia.
Qed.

(** C8.  A three-channel image of the target height and width is
    normalised to the row-major flattening of its channel 0; the other
    channels do not enter the result. *)
Theorem reshape_three_channels_keeps_channel_0 (image : ndarray) (height width : nat) :
  shape image = [height; width; 3] ->
  _reshape image height width =
    Return {| shape := [1; height * width];
              data := flatten (channel 0 (pixels_of image)) |}.
Proof.
  intros Hs. rewrite (_reshape_3d _ _ _ _ _ _ Hs) by discriminate.
  now rewrite Nat.eqb_refl.
Qed.

(** C3 (as amended).  A two-dimensional image of the target width whose
    height is [delta] rows short of the target is normalised to the
    row-major flattening of the image padded at the bottom with [delta]
    rows of zeros. *)
Theorem reshape_pads_missing_rows (image : ndarray) (h height width delta : nat) :
  wf image ->
  shape image = [h; width] ->
  h + delta = height ->
  _reshape image height width =
    Return {| shape := [1; height * width];
              data := flatten (pad_bottom delta width (rows_of image)) |}.
Proof.
  intros Wf Hs Hd. rewrite (_reshape_2d _ _ _ _ _ Hs).
  assert (Hrows : flatten (pad_bottom delta width (rows_of image))
                  = data image ++ repeat 0%Q (delta * width)).
  { unfold flatten, pad_bottom, rows_of. rewrite Hs, concat_app, concat_repeat_repeat.
    rewrite concat_chunks; [reflexivity|].
    unfold wf in Wf. rewrite Wf, Hs. unfold size_of. simpl. lia. }
  rewrite Hrows. clear Hrows.
  destruct delta as [|delta].
  - assert (h = height) by lia. subst h.
    rewrite (proj2 (shape_eqb_eq _ _) eq_refl). cbn [negb bind repeat Nat.mul].
    unfold ndarray_reshape. rewrite Hs, size_of_flat, app_nil_r. reflexivity.
  - rewrite shape_eqb_neq by (intros E; injection E; lia). cbn [negb].
    destruct (Nat.ltb_spec h height) as [_|Hge]; [|lia].
    rewrite (np_vstack_two image (np_zeros [height - h; width]) h (height - h) width
               Wf) by (try reflexivity; try assumption;
                       unfold wf, np_zeros; cbn [shape data]; apply repeat_length).
    cbn [bind]. unfold ndarray_reshape. cbn [shape data].
    replace (size_of [h + (height - h + 0); width] =? size_of [1; height * width])
      with true
      by (symmetry; apply Nat.eqb_eq; unfold size_of; cbn [fold_right]; nia).
    do 2 f_equal. unfold np_zeros, size_of. cbn [data fold_right].
    replace ((height - h) * (width * 1)) with (S delta * width) by nia. reflexivity.
Qed.

(** C10.  The three-dimensional branch compares no extent with the
    target: an image of shape (50, 200, 3) is normalised for a 100 x 100
    target without any error, to a (1, 10000) vector. *)
Theorem reshape_3d_checks_only_the_size :
  exists image : ndarray,
    wf image /\
    shape image = [50; 200; 3] /\
    [50; 200] <> [100; 100] /\
    _reshape image 100 100 =
      Return {| shape := [1; 100 * 100];
                data := flatten (channel 0 (pixels_of image)) |}.
Proof.
  exists (ramp [50; 200; 3] 1). split; [|split; [|split]].
  - unfold wf, ramp. cbn [shape data]. apply ramp_data_length.
  - reflexivity.
  - discriminate.
  - rewrite (_reshape_3d (ramp [50; 200; 3] 1) 50 200 3 100 100 eq_refl) by discriminate.
    reflexivity.
Qed.

(** ** Corpus assembly *)

Lemma mapM_first_failure {A B : Type} (f : A -> result B) (before after : list A)
    (x : A) (e : exn) :
  (forall x', In x' before -> exists y, f x' = Return y) ->
  f x = Raise e ->
  mapM f (before ++ x :: after) = Raise e.
Proof.
  intros Hb Hx. induction before as [|b before IH]; cbn [app mapM].
  - now rewrite Hx.
  - destruct (Hb b (or_introl eq_refl)) as [y ->]. cbn [bind].
    rewrite IH; [reflexivity|]. intros x' Hin. apply Hb. now right.
Qed.

Lemma mapM_some_failure {A B : Type} (f : A -> result B) (xs : list A) (x : A) (e : exn) :
  In x xs -> f x = Raise e -> exists e', mapM f xs = Raise e'.
Proof.
  intros Hin Hx. induction xs as [|a xs IH]; [contradiction|].
  cbn [mapM]. destruct (f a) as [y|e0] eqn:Ea; cbn [bind]; [|eauto].
  destruct Hin as [->|Hin]; [congruence|].
  destruct (IH Hin) as [e' ->]. cbn [bind]. eauto.
Qed.

Lemma mapM_Return {A B : Type} (f : A -> result B) (xs : list A) (ys : list B) :
  mapM f xs = Return ys -> Forall2 (fun x y => f x = Return y) xs ys.
Proof.
  revert ys; induction xs as [|a xs IH]; intros ys; cbn [mapM].
  - intros [= <-]. constructor.
  - destruct (f a) as [y|e] eqn:Ea; cbn [bind]; [|discriminate].
    destruct (mapM f xs) as [ys'|e]; cbn [bind]; [|discriminate].
    intros [= <-]. constructor; [assumption|]. now apply IH.
Qed.

Lemma ndarray_reshape_Return (a v : ndarray) (sh : list nat) :
  ndarray_reshape a sh = Return v -> shape v = sh /\ data v = data a.
Proof.
  unfold ndarray_reshape. destruct (_ =? _); [|discriminate].
  intros [= <-]. split; reflexivity.
Qed.

Lemma _reshape_Return_shape (image v : ndarray) (height width : nat) :
  _reshape image height width = Return v -> shape v = [1; height * width].
Proof.
  unfold _reshape.
  match goal with |- bind ?c _ = _ -> _ => destruct c as [image'|e] end;
    cbn [bind]; [|discriminate].
  intros E. now apply ndarray_reshape_Return in E.
Qed.

Lemma extents_of_rows (rows : list ndarray) (d : nat) :
  Forall (fun r => shape r = [1; d]) rows ->
  fold_right Nat.add 0 (map (fun a => nth 0 (shape a) 0) rows) = length rows.
Proof.
  induction 1 as [|r rows Hr _ IH]; cbn [map fold_right length]; [reflexivity|].
  rewrite IH, Hr. reflexivity.
Qed.

Lemma atleast_2d_rows (rows : list ndarray) (d : nat) :
  Forall (fun r => shape r = [1; d]) rows -> map atleast_2d rows = rows.
Proof.
  induction 1 as [|r rows Hr _ IH]; cbn [map]; [reflexivity|].
  rewrite IH. unfold atleast_2d. now rewrite Hr.
Qed.

(** Stacking [n] row vectors of length [d] gives an [n] by [d] matrix. *)
Lemma np_vstack_rows_shape (rows : list ndarray) (d : nat) (m : ndarray) :
  Forall (fun r => shape r = [1; d]) rows ->
  np_vstack rows = Return m ->
  shape m = [length rows; d].
Proof.
  intros Hrows. unfold np_vstack. rewrite (atleast_2d_rows _ _ Hrows).
  unfold np_concatenate. destruct rows as [|r0 rows]; [discriminate|].
  pose proof (Forall_inv Hrows) as H0. rewrite H0.
  cbn [length Nat.ltb Nat.leb negb firstn skipn app].
  destruct (mapM _ _); cbn [bind]; [|discriminate].
  intros [= <-]. cbn [shape].
  pose proof (extents_of_rows _ _ Hrows) as E. cbn [map fold_right length] in E.
  now rewrite E.
Qed.

Section PipelineFacts.

Variable imread : string -> result ndarray.
Variable fit : nat -> ndarray -> result RandomizedPCA.
Variable os_makedirs : string -> IO unit.
Variable imsave : string -> ndarray -> string -> IO unit.
Variable pickle_dump_gz : RandomizedPCA -> string -> IO unit.

Lemma compute_eigenfaces_load_failure (image_paths : list string)
    (n_eigenfaces width height : nat) (e : exn) :
  mapM (load imread height width) image_paths = Raise e ->
  compute_eigenfaces imread fit image_paths n_eigenfaces width height = Raise e.
Proof.
  intros E. unfold compute_eigenfaces. fold (load imread height width). now rewrite E.
Qed.

Lemma plot_eigenfaces_failure (cfg : config) (image_paths : list string)
    (data_out : string) (fs : gmap string file) (e : exn) :
  compute_eigenfaces imread fit image_paths
    (NUM_EIGENFACES cfg) (IMAGE_WIDTH cfg) (IMAGE_HEIGHT cfg) = Raise e ->
  plot_eigenfaces imread fit os_makedirs imsave pickle_dump_gz
    cfg image_paths data_out fs = (Raise e, fs).
Proof.
  intros E. unfold plot_eigenfaces, io_bind, lift. now rewrite E.
Qed.

(** The observation matrix has one row per image and one column per
    pixel of the target. *)
Lemma observation_matrix_shape (image_paths : list string) (height width : nat)
    (rows : list ndarray) (image_matrix : ndarray) :
  mapM (load imread height width) image_paths = Return rows ->
  np_vstack rows = Return image_matrix ->
  shape image_matrix = [length image_paths; height * width].
Proof.
  intros Hl Hv. apply mapM_Return in Hl.
  rewrite (Forall2_length _ _ _ Hl).
  apply np_vstack_rows_shape; [|assumption].
  clear Hv. induction Hl as [|p r ps rs Hp _ IH]; constructor; [|assumption].
  unfold load in Hp. destruct (imread p); cbn [bind] in Hp; [|discriminate].
  now apply _reshape_Return_shape in Hp.
Qed.

End PipelineFacts.


(** ** The basis renderer of [compute_eigenfaces] *)



(** ** The oversized image *)

Lemma _reshape_120x100 (image : ndarray) :
  shape image = [120; 100] ->
  _reshape image 100 100 = Raise (ValueError "unhandled resizing case: (120, 100)").
Proof. intros Hs. rewrite (_reshape_2d _ _ _ _ _ Hs). reflexivity. Qed.

(** C5 (as amended).  A run over a list of paths one of which holds a
    120 by 100 image, with a 100 by 100 target, fails and leaves the
    output store as it found it: no mean image, no eigenface and no model
    is written.  The exception is that of the first path that fails; when
    every earlier path loads and normalises, it is the [ValueError] of
    the oversized image, whose message names the shape (120, 100) and
    neither the path nor the target. *)
Theorem oversized_image_aborts_the_run
    (imread : string -> result ndarray)
    (fit : nat -> ndarray -> result RandomizedPCA)
    (os_makedirs : string -> IO unit)
    (imsave : string -> ndarray -> string -> IO unit)
    (pickle_dump_gz : RandomizedPCA -> string -> IO unit)
    (cfg : config) (image_paths : list string) (data_out : string)
    (fs : gmap string file) (p : string) (image : ndarray) :
  IMAGE_HEIGHT cfg = 100 ->
  IMAGE_WIDTH cfg = 100 ->
  In p image_paths ->
  imread p = Return image ->
  shape image = [120; 100] ->
  exists e,
    plot_eigenfaces imread fit os_makedirs imsave pickle_dump_gz
      cfg image_paths data_out fs = (Raise e, fs) /\
    (forall before after,
        image_paths = before ++ p :: after ->
        (forall p', In p' before -> exists v, load imread 100 100 p' = Return v) ->
        e = ValueError "unhandled resizing case: (120, 100)").
Proof.
  intros Hh Hw Hin Hp Hs.
  assert (Hl : load imread 100 100 p
               = Raise (ValueError "unhandled resizing case: (120, 100)")).
  { unfold load. rewrite Hp. cbn [bind]. now apply _reshape_120x100. }
  destruct (mapM_some_failure _ _ _ _ Hin Hl) as [e He].
  exists e. split.
  - apply plot_eigenfaces_failure. rewrite Hh, Hw.
    now apply compute_eigenfaces_load_failure.
  - intros before after -> Hb.
    rewrite (mapM_first_failure _ _ _ _ _ Hb Hl) in He. congruence.
Qed.

(** ** Rounding to four decimals *)

Lemma round_half_even_cases (x : Q) :
  let n := round_half_even x in
  (inject_Z n <= x + (1 # 2))%Q /\
  (x - (1 # 2) <= inject_Z n)%Q /\
  (inject_Z n == x + (1 # 2) -> Z.even n = true)%Q.
Proof.
  unfold round_half_even.
  pose proof (Qfloor_le x) as Hlo. pose proof (Qlt_floor x) as Hhi.
  rewrite inject_Z_plus in Hhi. change (inject_Z 1) with 1%Q in Hhi.
  destruct (Qcompare (x - inject_Z (Qfloor x)) (1 # 2)) eqn:C; cbn zeta.
  - apply Qeq_alt in C. destruct (Z.even (Qfloor x)) eqn:Ev.
    + repeat split; try lra; try assumption; intros E; lra.
    + rewrite inject_Z_plus. change (inject_Z 1) with 1%Q.
      repeat split; try lra. intros _.
      rewrite Z.add_1_r, Z.even_succ, <- Z.negb_even, Ev. reflexivity.
  - apply Qlt_alt in C. repeat split; try lra; intros E; lra.
  - apply Qgt_alt in C. rewrite inject_Z_plus. change (inject_Z 1) with 1%Q.
    repeat split; try lra; intros E; lra.
Qed.

Lemma round_half_even_comp (x y : Q) : (x == y)%Q -> round_half_even x = round_half_even y.
Proof.
  intros E. unfold round_half_even.
  rewrite (Qfloor_comp _ _ E).
  assert (E' : (x - inject_Z (Qfloor y) == y - inject_Z (Qfloor y))%Q) by (rewrite E; reflexivity).
  now rewrite (Qcompare_comp _ _ E' (1 # 2) (1 # 2) (Qeq_refl _)).
Qed.

Lemma round_half_even_mono (x y : Q) :
  (x <= y)%Q -> (round_half_even x <= round_half_even y)%Z.
Proof.
  intros L.
  destruct (round_half_even_cases x) as (Ux & _ & _).
  destruct (round_half_even_cases y) as (_ & Ly & _).
  cbn zeta in *.
  destruct (Z_le_gt_dec (round_half_even x) (round_half_even y)) as [|G]; [assumption|].
  assert (G' : (round_half_even y + 1 <= round_half_even x)%Z) by lia.
  rewrite Zle_Qle, inject_Z_plus in G'. change (inject_Z 1) with 1%Q in G'.
  assert (E : (x == y)%Q) by lra.
  apply round_half_even_comp in E. lia.
Qed.

(** ** Rounding to the nearest double *)

Lemma two_power_pos (z : Z) : (0 < 2 ^ z)%Q.
Proof. apply Qpower_0_lt. reflexivity. Qed.

Lemma two_power_succ (z : Z) : (2 ^ (z + 1) == 2 * 2 ^ z)%Q.
Proof.
  rewrite Qpower_plus by discriminate. change (2 ^ 1)%Q with 2%Q. ring.
Qed.

Lemma two_power_log2 (n : Z) :
  (0 < n)%Z ->
  (2 ^ Z.log2 n <= inject_Z n)%Q /\ (inject_Z n < 2 * 2 ^ Z.log2 n)%Q.
Proof.
  intros Hn. destruct (Z.log2_spec n Hn) as [L U].
  pose proof (Z.log2_nonneg n) as H0.
  rewrite Z.pow_succ_r in U by assumption.
  rewrite Zle_Qle in L. rewrite Zlt_Qlt, inject_Z_mult in U.
  rewrite (Zpower_Qpower 2 _ H0) in L, U.
  change (inject_Z 2) with 2%Q in *. split; assumption.
Qed.

(** The exponent of the binade of a positive number. *)
Lemma binade_spec (q : Q) :
  (0 < q)%Q -> (2 ^ binade q <= q)%Q /\ (q < 2 ^ (binade q + 1))%Q.
Proof.
  intros Hq. unfold binade.
  assert (Hn : (0 < Qnum q)%Z) by (destruct q as [n d]; unfold Qlt in Hq; cbn in *; lia).
  rewrite Z.abs_eq by lia. rewrite (Qabs_pos q) by lra.
  set (ln := Z.log2 (Qnum q)). set (ld := Z.log2 (Z.pos (Qden q))).
  destruct (two_power_log2 (Qnum q) Hn) as [Ln Un]. fold ln in Ln, Un.
  destruct (two_power_log2 (Z.pos (Qden q)) eq_refl) as [Ld Ud]. fold ld in Ld, Ud.
  assert (Eq : (q * inject_Z (Z.pos (Qden q)) == inject_Z (Qnum q))%Q).
  { destruct q as [n d]. unfold Qeq, Qmult, inject_Z. cbn. lia. }
  assert (Ep : (2 ^ (ln - ld) * 2 ^ ld == 2 ^ ln)%Q).
  { rewrite <- Qpower_plus by discriminate. now replace (ln - ld + ld)%Z with ln by lia. }
  pose proof (two_power_pos (ln - ld)) as Pc. pose proof (two_power_pos ld) as Pd.
  assert (Hlo : (2 ^ (ln - ld - 1) < q)%Q).
  { assert (E : (2 * 2 ^ (ln - ld - 1) == 2 ^ (ln - ld))%Q).
    { rewrite <- two_power_succ. now replace (ln - ld - 1 + 1)%Z with (ln - ld)%Z by lia. }
    set (a := (2 ^ (ln - ld))%Q) in *. set (b := (2 ^ ld)%Q) in *.
    set (a' := (2 ^ (ln - ld - 1))%Q) in *. set (c := (2 ^ ln)%Q) in *.
    set (N := inject_Z (Qnum q)) in *. set (D := inject_Z (Z.pos (Qden q))) in *.
    nra. }
  assert (Hhi : (q < 2 * 2 ^ (ln - ld))%Q).
  { set (a := (2 ^ (ln - ld))%Q) in *. set (b := (2 ^ ld)%Q) in *.
    set (c := (2 ^ ln)%Q) in *.
    set (N := inject_Z (Qnum q)) in *. set (D := inject_Z (Z.pos (Qden q))) in *.
    nra. }
  destruct (Qle_bool (2 ^ (ln - ld)) q) eqn:B.
  - apply Qle_bool_iff in B. split; [exact B|]. now rewrite two_power_succ.
  - assert (B' : (q < 2 ^ (ln - ld))%Q).
    { apply Qnot_le_lt. intros H. apply Qle_bool_iff in H. congruence. }
    split; [lra|]. now replace (ln - ld - 1 + 1)%Z with (ln - ld)%Z by lia.
Qed.

Lemma round_half_even_inject (k : Z) : round_half_even (inject_Z k) = k.
Proof.
  destruct (round_half_even_cases (inject_Z k)) as (U & L & _). cbn zeta in *.
  assert (H1 : (inject_Z (round_half_even (inject_Z k)) < inject_Z (k + 1))%Q).
  { rewrite inject_Z_plus. change (inject_Z 1) with 1%Q.
    set (a := inject_Z (round_half_even (inject_Z k))) in *.
    set (b := inject_Z k) in *. clearbody a b. lra. }
  assert (H2 : (inject_Z (k - 1) < inject_Z (round_half_even (inject_Z k)))%Q).
  { replace (k - 1)%Z with (k + -1)%Z by lia.
    rewrite inject_Z_plus. change (inject_Z (-1)) with (-1)%Q.
    set (a := inject_Z (round_half_even (inject_Z k))) in *.
    set (b := inject_Z k) in *. clearbody a b. lra. }
  rewrite <- Zlt_Qlt in H1, H2. lia.
Qed.

Lemma binade_mono (x y : Q) :
  (0 < x)%Q -> (x <= y)%Q -> (binade x <= binade y)%Z.
Proof.
  intros Hx Hxy.
  destruct (binade_spec x Hx) as [Lx _].
  destruct (binade_spec y ltac:(lra)) as [_ Uy].
  destruct (Z_le_gt_dec (binade x) (binade y)) as [|G]; [assumption|exfalso].
  assert (H : (2 ^ (binade y + 1) <= 2 ^ binade x)%Q)
    by (apply Qpower_le_compat_l; [lia|discriminate]).
  lra.
Qed.

(** The unit in the last place of the double nearest to [q]. *)
Lemma round_binary64_pos (q : Q) :
  (0 < q)%Q ->
  let ulp := (2 ^ (Z.max (binade q) (-1022) - 52))%Q in
  (round_binary64 q == inject_Z (round_half_even (q / ulp)) * ulp)%Q.
Proof.
  intros Hq. cbv zeta. unfold round_binary64.
  destruct (Qeq_bool q 0) eqn:E; [apply Qeq_bool_iff in E; lra|].
  destruct (Qlt_le_dec q 0) as [L|_]; [lra|].
  rewrite (round_half_even_comp (Qabs q / _) (q / 2 ^ (Z.max (binade q) (-1022) - 52))).
  - reflexivity.
  - rewrite Qabs_pos by lra. reflexivity.
Qed.

Lemma round_binary64_nonneg (q : Q) : (0 <= q)%Q -> (0 <= round_binary64 q)%Q.
Proof.
  intros Hq. destruct (Qeq_bool q 0) eqn:E.
  - unfold round_binary64. rewrite E. lra.
  - assert (Hq' : (0 < q)%Q).
    { apply Qle_lteq in Hq as [?|Z]; [assumption|].
      symmetry in Z. apply Qeq_bool_iff in Z. congruence. }
    rewrite (round_binary64_pos q Hq'). cbv zeta.
    pose proof (two_power_pos (Z.max (binade q) (-1022) - 52)) as Pu.
    set (u := (2 ^ (Z.max (binade q) (-1022) - 52))%Q) in *.
    assert (H : (0 <= round_half_even (q / u))%Z).
    { rewrite <- (round_half_even_inject 0). apply round_half_even_mono.
      change (inject_Z 0) with 0%Q. apply Qle_shift_div_l; [assumption|lra]. }
    rewrite Zle_Qle in H. change (inject_Z 0) with 0%Q in H. nra.
Qed.

(** Rounding to the nearest double keeps the order. *)
Lemma round_binary64_mono (x y : Q) :
  (0 <= x)%Q -> (x <= y)%Q -> (round_binary64 x <= round_binary64 y)%Q.
Proof.
  intros Hx Hxy.
  destruct (Qeq_bool x 0) eqn:E.
  { unfold round_binary64 at 1. rewrite E. apply round_binary64_nonneg. lra. }
  assert (Hx' : (0 < x)%Q).
  { apply Qle_lteq in Hx as [?|Z]; [assumption|].
    symmetry in Z. apply Qeq_bool_iff in Z. congruence. }
  assert (Hy' : (0 < y)%Q) by lra.
  rewrite (round_binary64_pos x Hx'), (round_binary64_pos y Hy'). cbv zeta.
  pose proof (binade_mono x y Hx' Hxy) as Hb.
  destruct (binade_spec x Hx') as [_ Ux]. destruct (binade_spec y Hy') as [Ly _].
  set (ex := Z.max (binade x) (-1022)). set (ey := Z.max (binade y) (-1022)).
  pose proof (two_power_pos (ex - 52)) as Pux. pose proof (two_power_pos (ey - 52)) as Puy.
  destruct (Z.eq_dec ex ey) as [Ee|Ne].
  - rewrite Ee. set (u := (2 ^ (ey - 52))%Q) in *.
    assert (H : (round_half_even (x / u) <= round_half_even (y / u))%Z).
    { apply round_half_even_mono. apply Qmult_le_compat_r; [assumption|].
      apply Qlt_le_weak, Qinv_lt_0_compat. assumption. }
    rewrite Zle_Qle in H. nra.
  - assert (Hlt : (ex < ey)%Z) by lia.
    assert (Hey : ey = binade y) by lia.
    (* the rounded [x] stays within its binade, the rounded [y] within its own *)
    assert (Hfx : (inject_Z (round_half_even (x / 2 ^ (ex - 52))) * 2 ^ (ex - 52)
                   <= 2 ^ (ex + 1))%Q).
    { assert (Hq : (x / 2 ^ (ex - 52) <= inject_Z (2 ^ 53))%Q).
      { apply Qle_shift_div_r; [assumption|].
        rewrite (Zpower_Qpower 2 53) by lia. change (inject_Z 2) with 2%Q.
        rewrite <- Qpower_plus by discriminate.
        replace (53 + (ex - 52))%Z with (ex + 1)%Z by lia.
        assert ((2 ^ (binade x + 1) <= 2 ^ (ex + 1))%Q)
          by (apply Qpower_le_compat_l; [lia|discriminate]).
        lra. }
      apply round_half_even_mono in Hq. rewrite round_half_even_inject in Hq.
      rewrite Zle_Qle in Hq. rewrite (Zpower_Qpower 2 53) in Hq by lia.
      change (inject_Z 2) with 2%Q in Hq.
      assert (Es : (2 ^ 53 * 2 ^ (ex - 52) == 2 ^ (ex + 1))%Q).
      { rewrite <- Qpower_plus by discriminate.
        now replace (53 + (ex - 52))%Z with (ex + 1)%Z by lia. }
      set (u := (2 ^ (ex - 52))%Q) in *. set (m := inject_Z _) in *.
      set (t := (2 ^ 53)%Q) in *. nra. }
    assert (Hfy : (2 ^ ey
                   <= inject_Z (round_half_even (y / 2 ^ (ey - 52))) * 2 ^ (ey - 52))%Q).
    { assert (Es : (2 ^ 52 * 2 ^ (ey - 52) == 2 ^ ey)%Q).
      { rewrite <- Qpower_plus by discriminate.
        now replace (52 + (ey - 52))%Z with ey by lia. }
      assert (Hq : (inject_Z (2 ^ 52) <= y / 2 ^ (ey - 52))%Q).
      { apply Qle_shift_div_l; [assumption|].
        rewrite (Zpower_Qpower 2 52) by lia. change (inject_Z 2) with 2%Q.
        rewrite Es, Hey. exact Ly. }
      apply round_half_even_mono in Hq. rewrite round_half_even_inject in Hq.
      rewrite Zle_Qle in Hq. rewrite (Zpower_Qpower 2 52) in Hq by lia.
      change (inject_Z 2) with 2%Q in Hq.
      set (u := (2 ^ (ey - 52))%Q) in *. set (m := inject_Z _) in *.
      set (t := (2 ^ 52)%Q) in *. nra. }
    assert (Hp : (2 ^ (ex + 1) <= 2 ^ ey)%Q)
      by (apply Qpower_le_compat_l; [lia|discriminate]).
    lra.
Qed.

Lemma float_mul_mono (x y : Q) :
  (0 <= x)%Q -> (x <= y)%Q -> (float_mul x 100 <= float_mul y 100)%Q.
Proof.
  intros Hx Hxy. unfold float_mul. apply round_binary64_mono; lra.
Qed.

Lemma float_mul_nonneg (x : Q) : (0 <= x)%Q -> (0 <= float_mul x 100)%Q.
Proof. intros Hx. unfold float_mul. apply round_binary64_nonneg. lra. Qed.

(** ** File names of the artifacts *)

Lemma digit_char_is_digit (d : nat) : d < 10 -> sign_or_digit (digit_char d) = true.
Proof.
  intros Hd. do 10 (destruct d as [|d]; [reflexivity|]). lia.
Qed.

Lemma str_digits_first (fuel : nat) (n : N) (acc : string) :
  exists c rest, str_digits (S fuel) n acc = String c rest /\ sign_or_digit c = true.
Proof.
  revert n acc; induction fuel as [|fuel IH]; intros n acc.
  - cbn [str_digits]. exists (digit_char (N.to_nat (n mod 10))), acc.
    split; [now destruct (n / 10 =? 0)%N|].
    apply digit_char_is_digit.
    pose proof (N.mod_upper_bound n 10). lia.
  - change (str_digits (S (S fuel)) n acc)
      with (let acc' := String (digit_char (N.to_nat (n mod 10))) acc in
            if (n / 10 =? 0)%N then acc' else str_digits (S fuel) (n / 10)%N acc').
    cbn zeta. destruct (n / 10 =? 0)%N.
    + eexists _, _. split; [reflexivity|].
      apply digit_char_is_digit. pose proof (N.mod_upper_bound n 10). lia.
    + apply IH.
Qed.

Lemma share_filename_first (r : Q) :
  exists c rest, share_filename r = String c rest /\ sign_or_digit c = true.
Proof.
  unfold share_filename, format_4f.
  destruct (Qlt_le_dec (float_mul r 100) 0).
  - eexists _, _. split; reflexivity.
  - unfold str_N.
    destruct (str_digits_first
                (N.to_nat (N.log2 (Z.to_N (fixed4 (float_mul r 100) / 10000))))
                (Z.to_N (fixed4 (float_mul r 100) / 10000)) "") as (c & rest & -> & Hc).
    eexists _, _. split; [reflexivity|assumption].
Qed.

Lemma append_cancel_l (d x y : string) : (d ++ x = d ++ y)%string -> x = y.
Proof. induction d as [|c d IH]; cbn; [trivial|]. intros [= E]. auto. Qed.

Lemma os_path_join_cancel (d x y : string) :
  startswith_slash x = false -> startswith_slash y = false ->
  os_path_join d x = os_path_join d y -> x = y.
Proof.
  unfold os_path_join. intros -> ->.
  destruct (String.eqb d "" || endswith_slash d); intros E.
  - now apply append_cancel_l in E.
  - apply append_cancel_l in E. now injection E.
Qed.

Lemma share_filename_relative (r : Q) : startswith_slash (share_filename r) = false.
Proof.
  destruct (share_filename_first r) as (c & rest & -> & Hc). cbn.
  destruct (Ascii.eqb_spec c "/") as [->|]; [discriminate|reflexivity].
Qed.

Lemma share_filename_not_fixed (r : Q) :
  share_filename r <> "mean-face.png" /\ share_filename r <> "pca.pickle.gz".
Proof.
  destruct (share_filename_first r) as (c & rest & -> & Hc).
  split; intros [= -> _]; discriminate.
Qed.

(** The four paths a run with two components writes to differ pairwise
    as soon as the two shares print differently. *)
Lemma artifact_paths_distinct (data_out : string) (r1 r2 : Q) :
  share_filename r1 <> share_filename r2 ->
  NoDup [os_path_join data_out "mean-face.png";
         os_path_join data_out (share_filename r1);
         os_path_join data_out (share_filename r2);
         os_path_join data_out "pca.pickle.gz"].
Proof.
  intros N.
  pose proof (share_filename_relative r1) as S1.
  pose proof (share_filename_relative r2) as S2.
  destruct (share_filename_not_fixed r1) as [M1 P1].
  destruct (share_filename_not_fixed r2) as [M2 P2].
  assert (J : forall x y, startswith_slash x = false -> startswith_slash y = false ->
                          x <> y -> os_path_join data_out x <> os_path_join data_out y).
  { intros x y Sx Sy Nxy E. apply Nxy. eapply os_path_join_cancel; eassumption. }
  repeat (apply NoDup_cons_2;
          [rewrite ?not_elem_of_cons; repeat split; try apply not_elem_of_nil;
           apply J; try assumption; try reflexivity; congruence|]).
  apply NoDup_nil_2.
Qed.

(** ** A run that succeeds *)

Lemma _reshape_exact (image : ndarray) (height width : nat) :
  shape image = [height; width] ->
  _reshape image height width
    = Return {| shape := [1; height * width]; data := data image |}.
Proof.
  intros Hs. rewrite (_reshape_2d _ _ _ _ _ Hs).
  rewrite (proj2 (shape_eqb_eq _ _) eq_refl). cbn [negb bind].
  unfold ndarray_reshape. now rewrite Hs, size_of_flat.
Qed.

Lemma concat_ok_rows (rows : list ndarray) (d : nat) :
  Forall (fun r => shape r = [1; d]) rows ->
  mapM (concat_ok 0 [1; d]) rows = Return (map (fun _ => tt) rows).
Proof.
  induction 1 as [|r rows Hr _ IH]; cbn [mapM map]; [reflexivity|].
  rewrite IH. unfold concat_ok. rewrite Hr.
  cbn [length Nat.eqb negb firstn skipn shape_eqb andb]. now rewrite Nat.eqb_refl.
Qed.

Lemma np_vstack_rows_Return (rows : list ndarray) (d : nat) :
  rows <> [] ->
  Forall (fun r => shape r = [1; d]) rows ->
  exists m, np_vstack rows = Return m /\ shape m = [length rows; d].
Proof.
  intros Hne Hrows.
  assert (E : exists m, np_vstack rows = Return m).
  { unfold np_vstack. rewrite (atleast_2d_rows _ _ Hrows).
    unfold np_concatenate. destruct rows as [|r0 rows]; [contradiction|].
    pose proof (Forall_inv Hrows) as H0. cbn beta in H0. rewrite H0.
    cbn [length Nat.ltb Nat.leb negb].
    rewrite (concat_ok_rows _ _ Hrows). cbn [bind]. eauto. }
  destruct E as [m E]. exists m. split; [assumption|].
  now apply np_vstack_rows_shape.
Qed.

(** Slicing the directions reshaped to [(k, height, width)] gives, one
    by one, the direction vectors laid out as images. *)
Lemma rendered_directions (pca : RandomizedPCA) (eigenvectors mean_face : ndarray)
    (k height width : nat) :
  shape eigenvectors = [k; height; width] ->
  data eigenvectors = data (components_ pca) ->
  map (fun eigenvector => ndarray_sub eigenvector mean_face) (iter_axis0 eigenvectors)
  = map (fun i => ndarray_sub (as_image height width (direction (height * width) pca i))
                              mean_face)
        (seq 0 k).
Proof.
  intros Hs Hd. unfold iter_axis0. rewrite Hs, map_map. apply map_ext. intros i.
  unfold as_image, direction. cbn [data]. rewrite Hd.
  replace (size_of [height; width]) with (height * width)
    by (unfold size_of; cbn [fold_right]; lia).
  reflexivity.
Qed.

Lemma compute_eigenfaces_Return
    (imread : string -> result ndarray)
    (fit : nat -> ndarray -> result RandomizedPCA)
    (image_paths : list string) (k width height : nat) :
  image_paths <> [] ->
  Forall (fun p => exists image,
            imread p = Return image /\ shape image = [height; width]) image_paths ->
  honours_contract fit (length image_paths) (height * width) k ->
  exists mean_face pca,
    compute_eigenfaces imread fit image_paths k width height
      = Return (mean_face,
                combine (map (fun i => ndarray_sub
                                (as_image height width (direction (height * width) pca i))
                                mean_face)
                             (seq 0 k))
                        (explained_variance_ratio_ pca),
                pca) /\
    (exists X, shape X = [length image_paths; height * width] /\ fit k X = Return pca) /\
    length (explained_variance_ratio_ pca) = k /\
    non_increasing (explained_variance_ratio_ pca) /\
    Forall (fun r => (0 <= r)%Q) (explained_variance_ratio_ pca) /\
    (fold_right Qplus 0%Q (explained_variance_ratio_ pca) <= 1)%Q.
Proof.
  intros Hne Himgs Hfit.
  assert (Hl : exists rows, mapM (load imread height width) image_paths = Return rows).
  { clear Hne Hfit. induction Himgs as [|p ps (image & Hp & Hs) _ [rows IH]]; cbn [mapM].
    - eauto.
    - unfold load at 1. rewrite Hp. cbn [bind]. rewrite (_reshape_exact _ _ _ Hs).
      cbn [bind]. rewrite IH. cbn [bind]. eauto. }
  destruct Hl as [rows Hl].
  assert (Hrows : Forall (fun r => shape r = [1; height * width]) rows).
  { pose proof (mapM_Return _ _ _ Hl) as F. clear -F.
    induction F as [|p r ps rs Hp _ IH]; constructor; [|assumption].
    unfold load in Hp. destruct (imread p); cbn [bind] in Hp; [|discriminate].
    now apply _reshape_Return_shape in Hp. }
  assert (Hlen : length rows = length image_paths).
  { symmetry. exact (Forall2_length _ _ _ (mapM_Return _ _ _ Hl)). }
  destruct (np_vstack_rows_Return rows (height * width)) as (X & Hv & HX);
    [intros ->; destruct image_paths; [contradiction|discriminate] | assumption |].
  rewrite Hlen in HX.
  destruct (Hfit X HX) as (pca & Hf & Hc & Hk & Hdesc & Hpos & Hsum).
  unfold compute_eigenfaces. fold (load imread height width).
  rewrite Hl. cbn [bind]. rewrite Hv. cbn [bind]. rewrite Hf. cbn [bind].
  unfold ndarray_reshape at 1. rewrite Hc.
  replace (size_of [k; height * width] =? size_of [k; height; width]) with true
    by (symmetry; apply Nat.eqb_eq; unfold size_of; cbn [fold_right]; lia).
  cbn [bind]. unfold np_mean_axis0. rewrite HX. cbn [bind].
  unfold ndarray_reshape. cbn [shape data].
  replace (size_of [height * width] =? size_of [height; width]) with true
    by (symmetry; apply Nat.eqb_eq; unfold size_of; cbn [fold_right]; lia).
  cbn [bind]. eexists _, pca. split; [|split; [eauto|repeat split; assumption]].
  rewrite (rendered_directions pca
             {| shape := [k; height; width]; data := data (components_ pca) |}
             _ k height width eq_refl eq_refl).
  reflexivity.
Qed.

(** On a file system that takes every write, [_makedirs] returns,
    whether the directory had to be made or was there already, and
    [_imsave] and [_serialize] leave their file in the store. *)
Lemma _makedirs_accepting
    (os_makedirs : string -> IO unit)
    (imsave : string -> ndarray -> string -> IO unit)
    (pickle_dump_gz : RandomizedPCA -> string -> IO unit)
    (dirname : string) (fs : gmap string file) :
  accepting os_makedirs imsave pickle_dump_gz ->
  _makedirs os_makedirs dirname fs = (Return tt, fs).
Proof.
  intros (Hm & _ & _). unfold _makedirs.
  destruct (Hm dirname fs) as [->|[msg ->]]; reflexivity.
Qed.

Lemma _imsave_accepting
    (os_makedirs : string -> IO unit)
    (imsave : string -> ndarray -> string -> IO unit)
    (pickle_dump_gz : RandomizedPCA -> string -> IO unit)
    (path : string) (matrix : ndarray) (fs : gmap string file) :
  accepting os_makedirs imsave pickle_dump_gz ->
  _imsave os_makedirs imsave path matrix fs = (Return tt, <[path := Png matrix]> fs).
Proof.
  intros A. unfold _imsave, io_bind.
  rewrite (_makedirs_accepting _ _ _ _ _ A). apply A.
Qed.

Lemma _serialize_accepting
    (os_makedirs : string -> IO unit)
    (imsave : string -> ndarray -> string -> IO unit)
    (pickle_dump_gz : RandomizedPCA -> string -> IO unit)
    (obj : RandomizedPCA) (path : string) (fs : gmap string file) :
  accepting os_makedirs imsave pickle_dump_gz ->
  _serialize os_makedirs pickle_dump_gz obj path fs
  = (Return tt, <[path := PickleGz obj]> fs).
Proof.
  intros A. unfold _serialize, io_bind.
  rewrite (_makedirs_accepting _ _ _ _ _ A). apply A.
Qed.

Lemma sample_accepting : accepting sample_makedirs sample_imsave sample_dump.
Proof.
  split; [|split; reflexivity].
  intros dirname fs. unfold sample_makedirs.
  destruct (decide (size fs = 0)); [left; reflexivity|right; eexists; reflexivity].
Qed.

Lemma for_each_imsave
    (os_makedirs : string -> IO unit)
    (imsave : string -> ndarray -> string -> IO unit)
    (pickle_dump_gz : RandomizedPCA -> string -> IO unit)
    (data_out : string) (eigenfaces : list (ndarray * Q))
    (start : nat) (fs : gmap string file) :
  accepting os_makedirs imsave pickle_dump_gz ->
  for_each (fun '(i, (eigenface, eigenvalue)) =>
              let outpath := os_path_join data_out
                               (format_4f (float_mul eigenvalue 100) ++ "%.png")%string in
              _imsave os_makedirs imsave outpath eigenface)
           (enumerate start eigenfaces) fs
  = (Return tt, write_eigenfaces data_out eigenfaces fs).
Proof.
  intros A.
  revert start fs; induction eigenfaces as [|[e r] es IH]; intros start fs.
  - reflexivity.
  - cbn [enumerate for_each]. unfold io_bind at 1.
    rewrite (_imsave_accepting _ _ _ _ _ _ A), IH. reflexivity.
Qed.

(** What a run leaves in the store once [compute_eigenfaces] returned,
    on a file system that takes every write. *)
Lemma plot_eigenfaces_Return
    (imread : string -> result ndarray)
    (fit : nat -> ndarray -> result RandomizedPCA)
    (os_makedirs : string -> IO unit)
    (imsave : string -> ndarray -> string -> IO unit)
    (pickle_dump_gz : RandomizedPCA -> string -> IO unit)
    (cfg : config) (image_paths : list string) (data_out : string)
    (fs : gmap string file)
    (mean_face : ndarray) (eigenfaces : list (ndarray * Q)) (pca : RandomizedPCA) :
  accepting os_makedirs imsave pickle_dump_gz ->
  compute_eigenfaces imread fit image_paths
    (NUM_EIGENFACES cfg) (IMAGE_WIDTH cfg) (IMAGE_HEIGHT cfg)
    = Return (mean_face, eigenfaces, pca) ->
  plot_eigenfaces imread fit os_makedirs imsave pickle_dump_gz cfg image_paths data_out fs
  = (Return tt,
     <[os_path_join data_out "pca.pickle.gz" := PickleGz pca]>
       (write_eigenfaces data_out eigenfaces
          (<[os_path_join data_out "mean-face.png" := Png mean_face]> fs))).
Proof.
  intros A E. unfold plot_eigenfaces. unfold io_bind at 1. unfold lift at 1. rewrite E.
  unfold io_bind at 1. rewrite (_imsave_accepting _ _ _ _ _ _ A).
  unfold io_bind. rewrite (for_each_imsave _ _ _ _ _ _ _ A).
  apply (_serialize_accepting _ _ _ _ _ _ A).
Qed.

(** A run over three images of the target shape with two components,
    with an engine that honours its contract and a file system that
    takes every write. *)
Lemma run_three_images_two_components
    (imread : string -> result ndarray)
    (fit : nat -> ndarray -> result RandomizedPCA)
    (os_makedirs : string -> IO unit)
    (imsave : string -> ndarray -> string -> IO unit)
    (pickle_dump_gz : RandomizedPCA -> string -> IO unit)
    (cfg : config) (p1 p2 p3 : string) (i1 i2 i3 : ndarray)
    (data_out : string) (fs : gmap string file) :
  accepting os_makedirs imsave pickle_dump_gz ->
  NUM_EIGENFACES cfg = 2 -> IMAGE_HEIGHT cfg = 100 -> IMAGE_WIDTH cfg = 100 ->
  imread p1 = Return i1 -> imread p2 = Return i2 -> imread p3 = Return i3 ->
  shape i1 = [100; 100] -> shape i2 = [100; 100] -> shape i3 = [100; 100] ->
  honours_contract fit 3 (100 * 100) 2 ->
  exists mean_face eigenface1 eigenface2 pca r1 r2,
    (exists X, shape X = [3; 100 * 100] /\ fit 2 X = Return pca) /\
    explained_variance_ratio_ pca = [r1; r2] /\
    (0 <= r2)%Q /\ (r2 <= r1)%Q /\ (r1 + r2 <= 1)%Q /\
    plot_eigenfaces imread fit os_makedirs imsave pickle_dump_gz cfg [p1; p2; p3] data_out fs
    = (Return tt,
       <[os_path_join data_out "pca.pickle.gz" := PickleGz pca]>
         (<[os_path_join data_out (share_filename r2) := Png eigenface2]>
            (<[os_path_join data_out (share_filename r1) := Png eigenface1]>
               (<[os_path_join data_out "mean-face.png" := Png mean_face]> fs)))).
Proof.
  intros A Hk Hh Hw H1 H2 H3 S1 S2 S3 Hfit.
  destruct (compute_eigenfaces_Return imread fit [p1; p2; p3] 2 100 100)
    as (mean_face & pca & Hc & HX & Hlen & Hdesc & Hpos & Hsum).
  { discriminate. }
  { repeat constructor; eauto. }
  { exact Hfit. }
  destruct (explained_variance_ratio_ pca) as [|r1 [|r2 [|r3 rs]]] eqn:Er;
    try discriminate.
  cbn [seq map combine] in Hc.
  cbn [non_increasing] in Hdesc. destruct Hdesc as [Hdesc _].
  apply Forall_cons in Hpos as [_ Hpos]. apply Forall_cons in Hpos as [Hpos _].
  cbn [fold_right] in Hsum.
  eexists mean_face, _, _, pca, r1, r2.
  split; [exact HX|].
  split; [exact Er|]. split; [exact Hpos|]. split; [exact Hdesc|]. split; [lra|].
  erewrite plot_eigenfaces_Return by (first [exact A | rewrite Hk, Hh, Hw; exact Hc]).
  reflexivity.
Qed.

Lemma sample_fit_honours_contract (r1 r2 : Q) :
  (0 <= r2)%Q -> (r2 <= r1)%Q -> (r1 + r2 <= 1)%Q ->
  honours_contract (sample_fit [r1; r2]) 3 (100 * 100) 2.
Proof.
  intros H0 H1 H2 X Hs. unfold sample_fit. rewrite Hs.
  eexists. split; [reflexivity|]. cbn [components_ explained_variance_ratio_ shape].
  split; [reflexivity|]. split; [reflexivity|].
  change (firstn (Nat.min 2 (Nat.min 3 (100 * 100))) [r1; r2]) with [r1; r2].
  split; [cbn; auto|]. split; [|cbn; lra].
  repeat constructor; lra.
Qed.

(** What a run over three images of shape 100 by 100 with two
    components does, with an engine that honours its contract and a file
    system that takes every write.  It writes four times, in this order:
    the mean image, the first eigenface, the second eigenface, the model.
    Each eigenface goes to the file named after its share in percent
    printed to four decimals, and the printed shares are in
    non-increasing order.  When the two shares print differently the
    four paths differ, so the run leaves one mean image, two eigenface
    images and one model; when they print alike the second eigenface
    replaces the first under the one name. *)
Theorem three_images_two_components_artifacts
    (imread : string -> result ndarray)
    (fit : nat -> ndarray -> result RandomizedPCA)
    (os_makedirs : string -> IO unit)
    (imsave : string -> ndarray -> string -> IO unit)
    (pickle_dump_gz : RandomizedPCA -> string -> IO unit)
    (cfg : config) (p1 p2 p3 : string) (i1 i2 i3 : ndarray)
    (data_out : string) (fs : gmap string file) :
  accepting os_makedirs imsave pickle_dump_gz ->
  NUM_EIGENFACES cfg = 2 -> IMAGE_HEIGHT cfg = 100 -> IMAGE_WIDTH cfg = 100 ->
  imread p1 = Return i1 -> imread p2 = Return i2 -> imread p3 = Return i3 ->
  shape i1 = [100; 100] -> shape i2 = [100; 100] -> shape i3 = [100; 100] ->
  honours_contract fit 3 (100 * 100) 2 ->
  exists mean_face eigenface1 eigenface2 pca r1 r2,
    let mean_path := os_path_join data_out "mean-face.png" in
    let path1 := os_path_join data_out (share_filename r1) in
    let path2 := os_path_join data_out (share_filename r2) in
    let model_path := os_path_join data_out "pca.pickle.gz" in
    explained_variance_ratio_ pca = [r1; r2] /\
    plot_eigenfaces imread fit os_makedirs imsave pickle_dump_gz cfg [p1; p2; p3] data_out fs
    = (Return tt,
       <[model_path := PickleGz pca]>
         (<[path2 := Png eigenface2]>
            (<[path1 := Png eigenface1]>
               (<[mean_path := Png mean_face]> fs)))) /\
    (fixed4 (float_mul r2 100) <= fixed4 (float_mul r1 100))%Z /\
    (share_filename r1 <> share_filename r2 ->
     NoDup [mean_path; path1; path2; model_path]) /\
    (share_filename r1 = share_filename r2 ->
     snd (plot_eigenfaces imread fit os_makedirs imsave pickle_dump_gz
            cfg [p1; p2; p3] data_out fs)
     = <[model_path := PickleGz pca]>
         (<[path2 := Png eigenface2]> (<[mean_path := Png mean_face]> fs))).
Proof.
  intros A Hk Hh Hw H1 H2 H3 S1 S2 S3 Hfit.
  destruct (run_three_images_two_components imread fit os_makedirs imsave pickle_dump_gz
              cfg p1 p2 p3 i1 i2 i3 data_out fs A Hk Hh Hw H1 H2 H3 S1 S2 S3 Hfit)
    as (mean_face & e1 & e2 & pca & r1 & r2 & _ & Er & Hpos & Hdesc & Hsum & Hrun).
  exists mean_face, e1, e2, pca, r1, r2. cbn zeta.
  split; [exact Er|]. split; [exact Hrun|].
  split.
  { unfold fixed4. apply round_half_even_mono.
    pose proof (float_mul_nonneg r2 Hpos) as N2.
    pose proof (float_mul_mono r2 r1 Hpos Hdesc) as M.
    rewrite !Qabs_pos by lra. nra. }
  split; [apply artifact_paths_distinct|].
  intros E. rewrite Hrun. cbn [snd]. rewrite E. now rewrite insert_insert_eq.
Qed.

(** ** Closed instances *)

(** C1, counterexample.  The same 120 by 100 image is refused with one
    and the same exception for a 100 by 100 and for a 90 by 100 target:
    the message carries the actual shape only. *)
Lemma refusal_omits_expected_shape :
  _reshape (ramp [120; 100] 1) 100 100
    = Raise (ValueError "unhandled resizing case: (120, 100)") /\
  _reshape (ramp [120; 100] 1) 90 100
    = Raise (ValueError "unhandled resizing case: (120, 100)") /\
  ~ refusal_names_expected_shape.
Proof.
  assert (E1 : _reshape (ramp [120; 100] 1) 100 100
               = Raise (ValueError "unhandled resizing case: (120, 100)"))
    by (vm_compute; reflexivity).
  assert (E2 : _reshape (ramp [120; 100] 1) 90 100
               = Raise (ValueError "unhandled resizing case: (120, 100)"))
    by (vm_compute; reflexivity).
  split; [exact E1|]. split; [exact E2|].
  intros [expected_of H].
  assert (N1 : ~ reconcilable 120 100 100 100) by (unfold reconcilable; lia).
  assert (N2 : ~ reconcilable 120 100 90 100) by (unfold reconcilable; lia).
  pose proof (H (ramp [120; 100] 1) 120 100 100 100 _ eq_refl N1 E1) as A1.
  pose proof (H (ramp [120; 100] 1) 120 100 90 100 _ eq_refl N2 E2) as A2.
  rewrite A1 in A2. discriminate.
Qed.

Lemma reshape_refuses_unreconcilable_witness :
  shape (ramp [120; 100] 1) = [120; 100] /\
  ~ reconcilable 120 100 100 100 /\
  exists msg,
    _reshape (ramp [120; 100] 1) 100 100 = Raise (ValueError msg) /\
    (100 <= 120 -> 100 <= 100 ->
     msg = ("unhandled resizing case: " ++ str_tuple [120; 100])%string) /\
    (120 < 100 \/ 100 < 100 -> msg = dims_mismatch).
Proof.
  split; [reflexivity|]. split; [unfold reconcilable; lia|].
  apply (reshape_refuses_unreconcilable (ramp [120; 100] 1) 120 100 100 100).
  - reflexivity.
  - unfold reconcilable; lia.
Defined.

(** C3, counterexample.  A 1 by 1 image is one row short of a 2 by 2
    target, and it is refused: the padding rows have the target width and
    do not stack under the image. *)
Lemma narrow_short_image_is_refused :
  _reshape (ramp [1; 1] 1) 2 2 = Raise (ValueError dims_mismatch) /\
  ~ pads_rows_whatever_the_width.
Proof.
  assert (E : _reshape (ramp [1; 1] 1) 2 2 = Raise (ValueError dims_mismatch))
    by (vm_compute; reflexivity).
  split; [exact E|].
  intros H. rewrite (H (ramp [1; 1] 1) 1 1 2 2 1 (ramp_wf _ _) eq_refl eq_refl) in E.
  discriminate.
Qed.

Lemma reshape_pads_missing_rows_witness :
  wf (ramp [1; 2] 5) /\
  shape (ramp [1; 2] 5) = [1; 2] /\
  1 + 1 = 2 /\
  _reshape (ramp [1; 2] 5) 2 2 =
    Return {| shape := [1; 2 * 2];
              data := flatten (pad_bottom 1 2 (rows_of (ramp [1; 2] 5))) |}.
Proof.
  split; [reflexivity|]. split; [reflexivity|]. split; [reflexivity|].
  apply (reshape_pads_missing_rows (ramp [1; 2] 5) 1 2 2 1); reflexivity.
Defined.

Lemma reshape_three_channels_keeps_channel_0_witness :
  shape (ramp [2; 2; 3] 1) = [2; 2; 3] /\
  _reshape (ramp [2; 2; 3] 1) 2 2 =
    Return {| shape := [1; 2 * 2];
              data := flatten (channel 0 (pixels_of (ramp [2; 2; 3] 1))) |}.
Proof.
  split; [reflexivity|].
  apply (reshape_three_channels_keeps_channel_0 (ramp [2; 2; 3] 1) 2 2). reflexivity.
Defined.

(** C5, counterexample.  Two runs, each over one path, the two paths
    holding the same 120 by 100 image, fail with one and the same
    exception: it does not tell the path. *)
Lemma failure_omits_path :
  plot_eigenfaces sample_imread (sample_fit []) sample_makedirs sample_imsave sample_dump
    default_config ["tall.png"] "out" ∅
    = (Raise (ValueError "unhandled resizing case: (120, 100)"), ∅) /\
  plot_eigenfaces sample_imread (sample_fit []) sample_makedirs sample_imsave sample_dump
    default_config ["tall2.png"] "out" ∅
    = (Raise (ValueError "unhandled resizing case: (120, 100)"), ∅) /\
  ~ failure_cites_path.
Proof.
  assert (E1 : plot_eigenfaces sample_imread (sample_fit [])
                 sample_makedirs sample_imsave sample_dump
                 default_config
                 ["tall.png"] "out" ∅
               = (Raise (ValueError "unhandled resizing case: (120, 100)"), ∅))
    by (vm_compute; reflexivity).
  assert (E2 : plot_eigenfaces sample_imread (sample_fit [])
                 sample_makedirs sample_imsave sample_dump
                 default_config
                 ["tall2.png"] "out" ∅
               = (Raise (ValueError "unhandled resizing case: (120, 100)"), ∅))
    by (vm_compute; reflexivity).
  split; [exact E1|]. split; [exact E2|].
  intros [path_of H].
  pose proof (H sample_imread (sample_fit []) sample_makedirs sample_imsave sample_dump
                default_config ["tall.png"] "out" ∅
                "tall.png" (ramp [120; 100] 1) _ _
                eq_refl eq_refl (or_introl eq_refl) eq_refl eq_refl E1) as A1.
  pose proof (H sample_imread (sample_fit []) sample_makedirs sample_imsave sample_dump
                default_config ["tall2.png"] "out" ∅
                "tall2.png" (ramp [120; 100] 1) _ _
                eq_refl eq_refl (or_introl eq_refl) eq_refl eq_refl E2) as A2.
  rewrite A1 in A2. discriminate.
Qed.

Lemma oversized_image_aborts_the_run_witness :
  IMAGE_HEIGHT default_config = 100 /\
  IMAGE_WIDTH default_config = 100 /\
  In "tall.png" ["a.png"; "tall.png"; "b.png"] /\
  sample_imread "tall.png" = Return (ramp [120; 100] 1) /\
  shape (ramp [120; 100] 1) = [120; 100] /\
  exists e,
    plot_eigenfaces sample_imread (sample_fit []) sample_makedirs sample_imsave sample_dump
      default_config
      ["a.png"; "tall.png"; "b.png"] "out" ∅ = (Raise e, ∅) /\
    (forall before after,
        ["a.png"; "tall.png"; "b.png"] = before ++ "tall.png" :: after ->
        (forall p', In p' before -> exists v, load sample_imread 100 100 p' = Return v) ->
        e = ValueError "unhandled resizing case: (120, 100)").
Proof.
  split; [reflexivity|]. split; [reflexivity|]. split; [simpl; auto|].
  split; [reflexivity|]. split; [reflexivity|].
  apply (oversized_image_aborts_the_run sample_imread (sample_fit [])
           sample_makedirs sample_imsave sample_dump default_config
           ["a.png"; "tall.png"; "b.png"] "out" ∅ "tall.png" (ramp [120; 100] 1)).
  - reflexivity.
  - reflexivity.
  - simpl; auto.
  - reflexivity.
  - reflexivity.
Defined.

Lemma three_artifacts (mean_face eigenface : ndarray) (pca : RandomizedPCA) :
  let fs' : gmap string file :=
    <["out/pca.pickle.gz" := PickleGz pca]>
      (<["out/50.0000%.png" := Png eigenface]>
         (<["out/mean-face.png" := Png mean_face]> ∅)) in
  size fs' = 3 /\
  dom fs' = {["out/mean-face.png"; "out/50.0000%.png"; "out/pca.pickle.gz"]}.
Proof.
  cbn zeta. split.
  - rewrite !map_size_insert_None, map_size_empty; [reflexivity|..];
      rewrite ?lookup_insert_ne by discriminate; apply lookup_empty.
  - rewrite !dom_insert_L, dom_empty_L. set_solver.
Qed.

(** C6, at a failing input.  The claim is that a run over three images
    of shape 100 by 100 with two components leaves exactly one mean
    image, two eigenface images and one model.  For three images whose
    two principal variances are equal the engine reports a share of one
    half for each component; both eigenfaces are then saved as
    [50.0000%.png], the second over the first, and the run, whose every
    write succeeds, leaves three files, one of them an eigenface. *)
Lemma equal_shares_leave_one_eigenface :
  share_filename (1 # 2) = "50.0000%.png" /\
  (exists fs',
      plot_eigenfaces sample_imread (sample_fit [1 # 2; 1 # 2]%Q)
        sample_makedirs sample_imsave sample_dump two_components
        ["a.png"; "b.png"; "c.png"] "out" ∅ = (Return tt, fs') /\
      size fs' = 3 /\
      dom fs' = {["out/mean-face.png"; "out/50.0000%.png"; "out/pca.pickle.gz"]}) /\
  ~ leaves_four_files.
Proof.
  assert (Hfit : honours_contract (sample_fit [1 # 2; 1 # 2]%Q) 3 (100 * 100) 2)
    by (apply sample_fit_honours_contract; lra).
  assert (Hname : share_filename (1 # 2) = "50.0000%.png") by (vm_compute; reflexivity).
  assert (Hrun : exists mean_face eigenface pca,
             plot_eigenfaces sample_imread (sample_fit [1 # 2; 1 # 2]%Q)
               sample_makedirs sample_imsave sample_dump two_components
               ["a.png"; "b.png"; "c.png"] "out" ∅
             = (Return tt,
                <["out/pca.pickle.gz" := PickleGz pca]>
                  (<["out/50.0000%.png" := Png eigenface]>
                     (<["out/mean-face.png" := Png mean_face]> ∅)))).
  { destruct (run_three_images_two_components sample_imread
                (sample_fit [1 # 2; 1 # 2]%Q) sample_makedirs sample_imsave sample_dump
                two_components "a.png" "b.png" "c.png"
                (dot [100; 100] 0) (dot [100; 100] 1) (dot [100; 100] 2) "out" ∅
                sample_accepting
                eq_refl eq_refl eq_refl eq_refl eq_refl eq_refl eq_refl eq_refl eq_refl
                Hfit)
      as (mean_face & e1 & e2 & pca & r1 & r2 & (X & HX & Hf) & Er & _ & _ & _ & Hrun).
    assert (Hr : explained_variance_ratio_ pca = [1 # 2; 1 # 2]%Q).
    { unfold sample_fit in Hf. rewrite HX in Hf. injection Hf as <-. reflexivity. }
    rewrite Hr in Er. injection Er as <- <-.
    exists mean_face, e2, pca. rewrite Hrun, Hname.
    now rewrite insert_insert_eq. }
  destruct Hrun as (mean_face & eigenface & pca & Hrun).
  destruct (three_artifacts mean_face eigenface pca) as [Hsize Hdom].
  split; [exact Hname|]. split.
  - eexists. split; [exact Hrun|]. split; assumption.
  - intros H.
    pose proof (H sample_imread (sample_fit [1 # 2; 1 # 2]%Q)
                  sample_makedirs sample_imsave sample_dump two_components
                  "a.png" "b.png" "c.png"
                  (dot [100; 100] 0) (dot [100; 100] 1) (dot [100; 100] 2) "out" _
                  sample_accepting
                  eq_refl eq_refl eq_refl eq_refl eq_refl eq_refl eq_refl eq_refl eq_refl
                  Hfit Hrun) as H4.
    rewrite Hsize in H4. discriminate.
Qed.

Lemma three_images_two_components_artifacts_witness :
  accepting sample_makedirs sample_imsave sample_dump /\
  NUM_EIGENFACES two_components = 2 /\
  IMAGE_HEIGHT two_components = 100 /\
  IMAGE_WIDTH two_components = 100 /\
  sample_imread "a.png" = Return (dot [100; 100] 0) /\
  sample_imread "b.png" = Return (dot [100; 100] 1) /\
  sample_imread "c.png" = Return (dot [100; 100] 2) /\
  shape (dot [100; 100] 0) = [100; 100] /\
  shape (dot [100; 100] 1) = [100; 100] /\
  shape (dot [100; 100] 2) = [100; 100] /\
  honours_contract (sample_fit [3 # 4; 1 # 4]%Q) 3 (100 * 100) 2 /\
  exists mean_face eigenface1 eigenface2 pca r1 r2,
    let mean_path := os_path_join "out" "mean-face.png" in
    let path1 := os_path_join "out" (share_filename r1) in
    let path2 := os_path_join "out" (share_filename r2) in
    let model_path := os_path_join "out" "pca.pickle.gz" in
    explained_variance_ratio_ pca = [r1; r2] /\
    plot_eigenfaces sample_imread (sample_fit [3 # 4; 1 # 4]%Q)
      sample_makedirs sample_imsave sample_dump
      two_components
      ["a.png"; "b.png"; "c.png"] "out" ∅
    = (Return tt,
       <[model_path := PickleGz pca]>
         (<[path2 := Png eigenface2]>
            (<[path1 := Png eigenface1]>
               (<[mean_path := Png mean_face]> ∅)))) /\
    (fixed4 (float_mul r2 100) <= fixed4 (float_mul r1 100))%Z /\
    (share_filename r1 <> share_filename r2 ->
     NoDup [mean_path; path1; path2; model_path]) /\
    (share_filename r1 = share_filename r2 ->
     snd (plot_eigenfaces sample_imread (sample_fit [3 # 4; 1 # 4]%Q)
            sample_makedirs sample_imsave sample_dump
            two_components
            ["a.png"; "b.png"; "c.png"] "out" ∅)
     = <[model_path := PickleGz pca]>
         (<[path2 := Png eigenface2]> (<[mean_path := Png mean_face]> ∅))).
Proof.
  assert (Hfit : honours_contract (sample_fit [3 # 4; 1 # 4]%Q) 3 (100 * 100) 2)
    by (apply sample_fit_honours_contract; lra).
  repeat (split; [first [reflexivity | exact Hfit | exact sample_accepting]|]).
  apply (three_images_two_components_artifacts sample_imread
           (sample_fit [3 # 4; 1 # 4]%Q) sample_makedirs sample_imsave sample_dump
           two_components "a.png" "b.png" "c.png"
           (dot [100; 100] 0) (dot [100; 100] 1) (dot [100; 100] 2) "out" ∅);
    first [reflexivity | exact Hfit | exact sample_accepting].
Defined.

(** * Further properties

    ** The normaliser, shape by shape *)

Lemma reconcilableb_spec (h w height width : nat) :
  reconcilableb h w height width = true <-> reconcilable h w height width.
Proof.
  unfold reconcilableb, reconcilable.
  rewrite !orb_true_iff, !andb_true_iff, !Nat.eqb_eq, !Nat.ltb_lt. tauto.
Qed.

Lemma np_vstack_two_Return (a b : ndarray) (h k w : nat) :
  shape a = [h; w] -> shape b = [k; w] ->
  exists d, np_vstack [a; b] = Return {| shape := [h + (k + 0); w]; data := d |}.
Proof.
  destruct a as [sa da], b as [sb db]. cbn [shape data]. intros -> ->.
  unfold np_vstack, np_concatenate, atleast_2d.
  cbn [map length Nat.ltb Nat.leb negb mapM concat_ok firstn skipn shape data Nat.eqb
       shape_eqb andb bind nth fold_right app].
  rewrite Nat.eqb_refl. cbn [andb negb bind]. eexists. reflexivity.
Qed.

Lemma np_hstack_two (a b : ndarray) (h w k : nat) :
  shape a = [h; w] -> shape b = [h; k] ->
  np_hstack [a; b] =
    Return {| shape := [h; w + (k + 0)];
              data := flat_map (fun i => block (w * 1) i (data a)
                                         ++ block (k * 1) i (data b) ++ [])
                               (seq 0 (h * 1)) |}.
Proof.
  destruct a as [sa da], b as [sb db]. cbn [shape data]. intros -> ->.
  unfold np_hstack, np_concatenate, atleast_1d.
  cbn [map length Nat.ltb Nat.leb negb mapM concat_ok firstn skipn shape data Nat.eqb
       shape_eqb andb bind nth fold_right app size_of flat_map].
  rewrite Nat.eqb_refl. cbn [andb negb bind]. reflexivity.
Qed.

Lemma shape_eqb_refl (s : list nat) : shape_eqb s s = true.
Proof. now apply shape_eqb_eq. Qed.

Lemma concat_ok_self (axis : nat) (a : ndarray) : concat_ok axis (shape a) a = Return tt.
Proof.
  unfold concat_ok. now rewrite Nat.eqb_refl, !shape_eqb_refl.
Qed.

(** Stacking an array of four or more dimensions with a two-dimensional
    block of zeros is refused. *)
Lemma np_vstack_ndim_mismatch (a b : ndarray) (s0 s1 s2 s3 : nat) (rest : list nat)
    (k w : nat) :
  shape a = s0 :: s1 :: s2 :: s3 :: rest -> shape b = [k; w] ->
  np_vstack [a; b]
  = Raise (ValueError "all the input arrays must have same number of dimensions").
Proof.
  intros Ha Hb. unfold np_vstack, np_concatenate, atleast_2d.
  cbn [map]. rewrite Ha, Hb. cbn [mapM]. rewrite !concat_ok_self.
  unfold concat_ok. rewrite Ha, Hb. reflexivity.
Qed.

Lemma np_hstack_ndim_mismatch (a b : ndarray) (s0 s1 s2 s3 : nat) (rest : list nat)
    (k w : nat) :
  shape a = s0 :: s1 :: s2 :: s3 :: rest -> shape b = [k; w] ->
  np_hstack [a; b]
  = Raise (ValueError "all the input arrays must have same number of dimensions").
Proof.
  intros Ha Hb. unfold np_hstack, np_concatenate, atleast_1d.
  cbn [map]. rewrite Ha, Hb. cbn [mapM]. rewrite !concat_ok_self.
  unfold concat_ok. rewrite Ha, Hb.
  cbn [length Nat.eqb Nat.ltb Nat.leb negb bind]. reflexivity.
Qed.

(** The answer of [_reshape] is decided by the shape of the image. *)
Lemma _reshape_cases (image : ndarray) (height width : nat) :
  match _reshape_outcome (shape image) height width with
  | None => exists v, _reshape image height width = Return v
                      /\ shape v = [1; height * width]
  | Some e => _reshape image height width = Raise e
  end.
Proof.
  destruct (shape image) as [|h [|w [|c [|x rest]]]] eqn:Hs.
  - unfold _reshape. rewrite Hs. reflexivity.
  - unfold _reshape. rewrite Hs. rewrite shape_eqb_neq by discriminate. reflexivity.
  - cbn [_reshape_outcome]. rewrite (_reshape_2d _ _ _ _ _ Hs).
    destruct (reconcilableb h w height width) eqn:R.
    + apply reconcilableb_spec in R. destruct R as [[-> ->]|[[Hh ->]|[-> Hw]]].
      * rewrite (proj2 (shape_eqb_eq _ _) eq_refl). cbn [negb bind].
        unfold ndarray_reshape. rewrite Hs, size_of_flat. eauto.
      * rewrite shape_eqb_neq by (intros [= ? ]; lia). cbn [negb].
        destruct (Nat.ltb_spec h height); [|lia].
        destruct (np_vstack_two_Return image (np_zeros [height - h; width])
                    h (height - h) width Hs eq_refl) as [d ->].
        cbn [bind]. unfold ndarray_reshape. cbn [shape data].
        replace (size_of [h + (height - h + 0); width] =? size_of [1; height * width])
          with true by (symmetry; apply Nat.eqb_eq; unfold size_of; cbn [fold_right]; nia).
        eauto.
      * rewrite shape_eqb_neq by (intros [= ? ]; lia). cbn [negb].
        destruct (Nat.ltb_spec height height); [lia|].
        destruct (Nat.ltb_spec w width); [|lia].
        rewrite (np_hstack_two image (np_zeros [height; width - w]) height w (width - w)
                   Hs eq_refl).
        cbn [bind]. unfold ndarray_reshape. cbn [shape data].
        replace (size_of [height; w + (width - w + 0)] =? size_of [1; height * width])
          with true by (symmetry; apply Nat.eqb_eq; unfold size_of; cbn [fold_right]; nia).
        eauto.
    + assert (NR : ~ reconcilable h w height width).
      { intros R'. apply reconcilableb_spec in R'. congruence. }
      rewrite shape_eqb_neq.
      2:{ intros E. injection E as -> ->. apply NR. left. split; reflexivity. }
      cbn [negb].
      destruct (Nat.ltb_spec h height) as [Hh|Hh]; cbn [orb].
      * assert (w <> width) by (intros ->; apply NR; right; left; split; [lia|reflexivity]).
        now rewrite (np_vstack_mismatch image (np_zeros [height - h; width]) h w
                       (height - h) width Hs eq_refl).
      * destruct (Nat.ltb_spec w width) as [Hw|Hw].
        -- assert (h <> height)
             by (intros ->; apply NR; right; right; split; [reflexivity|lia]).
           now rewrite (np_hstack_mismatch image (np_zeros [height; width - w]) h w height
                          (width - w) Hs eq_refl).
        -- reflexivity.
  - cbn [_reshape_outcome]. destruct (Nat.eqb_spec c 0) as [->|C].
    + unfold _reshape. rewrite Hs. rewrite shape_eqb_neq by discriminate.
      cbn [negb firstn unpack2 bind length Nat.eqb]. unfold getitem_channel0.
      rewrite Hs. reflexivity.
    + rewrite (_reshape_3d _ _ _ _ _ _ Hs C).
      destruct (h * w =? height * width); eauto.
  - cbn [_reshape_outcome]. unfold _reshape. rewrite Hs.
    rewrite shape_eqb_neq by discriminate.
    cbn [negb firstn unpack2 bind length Nat.eqb].
    destruct (Nat.ltb_spec h height) as [Hh|Hh]; cbn [orb].
    + now rewrite (np_vstack_ndim_mismatch image (np_zeros [height - h; width])
                     h w c x rest (height - h) width Hs eq_refl).
    + destruct (Nat.ltb_spec w width) as [Hw|Hw].
      * now rewrite (np_hstack_ndim_mismatch image (np_zeros [height; width - w])
                       h w c x rest height (width - w) Hs eq_refl).
      * reflexivity.
Qed.

Lemma firstn_repeat_le {A : Type} (x : A) (n m : nat) :
  n <= m -> firstn n (repeat x m) = repeat x n.
Proof.
  revert m; induction n as [|n IH]; intros m L; [reflexivity|].
  destruct m as [|m]; [lia|]. cbn. f_equal. apply IH. lia.
Qed.

Lemma skipn_repeat_sub {A : Type} (x : A) (n m : nat) :
  skipn n (repeat x m) = repeat x (m - n).
Proof.
  revert m; induction n as [|n IH]; intros m; cbn.
  - now rewrite Nat.sub_0_r.
  - destruct m as [|m]; [reflexivity|]. cbn. apply IH.
Qed.

Lemma block_repeat (k i h : nat) :
  i < h -> block k i (repeat 0%Q (h * k)) = repeat 0%Q k.
Proof.
  intros Hi. unfold block. rewrite skipn_repeat_sub. apply firstn_repeat_le. nia.
Qed.

Lemma chunks_as_blocks {A : Type} (n count : nat) (l : list A) :
  chunks n count l = map (fun i => firstn n (skipn (i * n) l)) (seq 0 count).
Proof.
  revert l; induction count as [|c IH]; intros l; [reflexivity|].
  cbn [chunks seq map]. f_equal. rewrite IH, <- seq_shift, map_map.
  apply map_ext. intros i. rewrite skipn_skipn. do 2 f_equal. lia.
Qed.

(** The buffer [np.hstack] builds from an image and a block of zero
    columns is the image read row by row, each row followed by its
    zeros. *)
Lemma hstack_zero_columns (da : list Q) (h w k : nat) :
  flat_map (fun i => block (w * 1) i da
                     ++ block (k * 1) i (data (np_zeros [h; k])) ++ [])
           (seq 0 (h * 1))
  = flatten (pad_right k (chunks w h da)).
Proof.
  unfold flatten, pad_right. rewrite chunks_as_blocks, map_map, flat_map_concat_map.
  rewrite !Nat.mul_1_r. f_equal. apply map_ext_in. intros i Hi.
  apply in_seq in Hi. unfold np_zeros, size_of. cbn [data fold_right].
  rewrite Nat.mul_1_r, block_repeat by lia. rewrite app_nil_r. reflexivity.
Qed.

(** What [_reshape] returns for an image of the target height that is
    narrower than the target. *)
Lemma _reshape_narrow (image : ndarray) (w height width delta : nat) :
  shape image = [height; w] -> w + S delta = width ->
  _reshape image height width =
    Return {| shape := [1; height * width];
              data := flatten (pad_right (S delta) (rows_of image)) |}.
Proof.
  intros Hs Hd. rewrite (_reshape_2d _ _ _ _ _ Hs).
  rewrite shape_eqb_neq by (intros [= ?]; lia). cbn [negb].
  destruct (Nat.ltb_spec height height); [lia|].
  destruct (Nat.ltb_spec w width); [|lia].
  rewrite (np_hstack_two image (np_zeros [height; width - w]) height w (width - w)
             Hs eq_refl).
  cbn [bind]. unfold ndarray_reshape. cbn [shape data].
  replace (size_of [height; w + (width - w + 0)] =? size_of [1; height * width])
    with true by (symmetry; apply Nat.eqb_eq; unfold size_of; cbn [fold_right]; nia).
  rewrite hstack_zero_columns. unfold rows_of. rewrite Hs.
  replace (width - w) with (S delta) by lia. reflexivity.
Qed.

Lemma length_flatten_pad_right (k w h : nat) (da : list Q) :
  length da = h * w ->
  length (flatten (pad_right k (chunks w h da))) = h * (w + k).
Proof.
  unfold flatten, pad_right.
  revert da; induction h as [|h IH]; intros da L; [reflexivity|].
  cbn [chunks map concat]. rewrite !length_app, repeat_length, IH.
  - rewrite length_firstn. cbn in L. nia.
  - rewrite length_skipn. cbn in L. lia.
Qed.

Lemma length_flatten_channel (k c w h : nat) (da : list Q) :
  length (flatten (channel k (map (chunks c w) (chunks (w * c) h da)))) = h * w.
Proof.
  unfold flatten, channel. rewrite <- concat_map, length_map, chunks_chunks.
  apply chunks_length.
Qed.

(** A well-formed image is normalised to a well-formed vector. *)
Lemma _reshape_wf (image v : ndarray) (height width : nat) :
  wf image ->
  _reshape image height width = Return v ->
  shape v = [1; height * width] /\ length (data v) = height * width.
Proof.
  intros Wf E. split; [now apply _reshape_Return_shape in E|].
  unfold wf in Wf.
  destruct (shape image) as [|h [|w [|c [|x rest]]]] eqn:Hs.
  - pose proof (_reshape_cases image height width) as C. rewrite Hs in C.
    cbn in C. congruence.
  - pose proof (_reshape_cases image height width) as C. rewrite Hs in C.
    cbn in C. congruence.
  - pose proof (_reshape_cases image height width) as C. rewrite Hs in C.
    cbn [_reshape_outcome] in C.
    destruct (reconcilableb h w height width) eqn:R.
    2:{ destruct (_ || _); congruence. }
    clear C. apply reconcilableb_spec in R.
    destruct R as [[-> ->]|[[Hh ->]|[-> Hw]]].
    + rewrite (_reshape_exact _ _ _ Hs) in E. injection E as <-. cbn [data].
      rewrite Wf. unfold size_of. cbn [fold_right]. lia.
    + rewrite (_reshape_2d _ _ _ _ _ Hs) in E.
      rewrite shape_eqb_neq in E by (intros [= ?]; lia). cbn [negb] in E.
      destruct (Nat.ltb_spec h height); [|lia].
      rewrite (np_vstack_two image (np_zeros [height - h; width]) h (height - h) width)
        in E; try assumption; try reflexivity.
      2:{ unfold wf. now rewrite Hs. }
      2:{ unfold wf, np_zeros. cbn [shape data]. apply repeat_length. }
      cbn [bind] in E. unfold ndarray_reshape in E. cbn [shape data] in E.
      destruct (_ =? _); [|discriminate]. injection E as <-. cbn [data].
      rewrite length_app, Wf. unfold np_zeros, size_of. cbn [data fold_right].
      rewrite repeat_length. nia.
    + destruct (Nat.eq_dec w width) as [->|Hne]; [lia|].
      rewrite (_reshape_narrow image w height width (width - w - 1) Hs) in E by lia.
      injection E as <-. cbn [data]. unfold rows_of. rewrite Hs.
      rewrite length_flatten_pad_right.
      * f_equal. lia.
      * rewrite Wf. unfold size_of. cbn [fold_right]. lia.
  - destruct (Nat.eq_dec c 0) as [->|C].
    + pose proof (_reshape_cases image height width) as C. rewrite Hs in C.
      cbn in C. congruence.
    + rewrite (_reshape_3d _ _ _ _ _ _ Hs C) in E.
      destruct (Nat.eqb_spec (h * w) (height * width)) as [Eq|]; [|discriminate].
      injection E as <-. cbn [data]. unfold pixels_of. rewrite Hs.
      now rewrite length_flatten_channel.
  - pose proof (_reshape_cases image height width) as C. rewrite Hs in C.
    cbn [_reshape_outcome] in C. destruct (_ || _); congruence.
Qed.

(** ** More on corpus assembly *)

Lemma np_vstack_rows_data (rows : list ndarray) (d : nat) (m : ndarray) :
  Forall (fun r => shape r = [1; d] /\ length (data r) = d) rows ->
  np_vstack rows = Return m ->
  data m = concat (map data rows).
Proof.
  intros Hrows.
  assert (Hsh : Forall (fun r => shape r = [1; d]) rows)
    by (eapply Forall_impl; [exact Hrows|]; now intros r [? _]).
  unfold np_vstack. rewrite (atleast_2d_rows _ _ Hsh).
  unfold np_concatenate. destruct rows as [|r0 rows]; [discriminate|].
  pose proof (Forall_inv Hsh) as H0. cbn beta in H0. rewrite H0.
  cbn [length Nat.ltb Nat.leb negb firstn skipn app size_of fold_right seq flat_map].
  destruct (mapM _ _); cbn [bind]; [|discriminate].
  intros [= <-]. cbn [data]. rewrite app_nil_r.
  assert (G : forall r, In r (r0 :: rows) ->
                block (nth 0 (shape r) 0 * (d * 1)) 0 (data r) = data r).
  { intros r Hr. rewrite List.Forall_forall in Hrows. destruct (Hrows r Hr) as [Sr Lr].
    rewrite Sr. cbn [nth]. apply block_0_all. rewrite Lr. lia. }
  cbn [map concat]. rewrite G by (left; reflexivity). f_equal.
  rewrite flat_map_concat_map. f_equal. apply map_ext_in. intros r Hr.
  apply G. now right.
Qed.

Lemma chunks_concat {A : Type} (n : nat) (ls : list (list A)) :
  Forall (fun l => length l = n) ls ->
  chunks n (length ls) (concat ls) = ls.
Proof.
  induction 1 as [|l ls Hl _ IH]; [reflexivity|].
  cbn [length chunks concat].
  rewrite firstn_app, Hl, Nat.sub_diag, <- Hl, firstn_all. cbn [firstn].
  rewrite app_nil_r. f_equal.
  rewrite skipn_app, Hl, Nat.sub_diag, <- Hl, skipn_all. cbn [skipn app].
  rewrite Hl. exact IH.
Qed.

Lemma nth_concat_row (rows : list ndarray) (d i j : nat) :
  Forall (fun r => length (data r) = d) rows ->
  j < d -> i < length rows ->
  nth (i * d + j) (concat (map data rows)) 0%Q
  = nth j (data (nth i rows (np_zeros []))) 0%Q.
Proof.
  intros Hrows Hj. revert i. induction Hrows as [|r rows Hr _ IH]; intros i Hi;
    cbn [length] in Hi; [lia|].
  cbn [map concat]. destruct i as [|i].
  - cbn [Nat.mul Nat.add nth]. apply app_nth1. lia.
  - rewrite app_nth2 by (rewrite Hr; nia).
    replace (S i * d + j - length (data r)) with (i * d + j) by (rewrite Hr; nia).
    cbn [nth]. apply IH. lia.
Qed.

Lemma map_nth_seq {A B : Type} (f : A -> B) (l : list A) (d : A) :
  map (fun i => f (nth i l d)) (seq 0 (length l)) = map f l.
Proof.
  induction l as [|x l IH]; [reflexivity|].
  cbn [length seq map nth]. f_equal. rewrite <- seq_shift, map_map. exact IH.
Qed.

Lemma nth_error_map_seq {B : Type} (f : nat -> B) (n j : nat) :
  j < n -> nth_error (map f (seq 0 n)) j = Some (f j).
Proof.
  intros Hj. rewrite (nth_error_nth' _ (f 0)) by (now rewrite length_map, length_seq).
  now rewrite map_nth, seq_nth.
Qed.

(** What a returning call of [compute_eigenfaces] went through. *)
Lemma compute_eigenfaces_inv
    (imread : string -> result ndarray)
    (fit : nat -> ndarray -> result RandomizedPCA)
    (image_paths : list string) (k width height : nat)
    (mean_face : ndarray) (eigenfaces : list (ndarray * Q)) (pca : RandomizedPCA) :
  compute_eigenfaces imread fit image_paths k width height
    = Return (mean_face, eigenfaces, pca) ->
  exists rows X mean_vector,
    mapM (load imread height width) image_paths = Return rows /\
    np_vstack rows = Return X /\
    fit k X = Return pca /\
    np_mean_axis0 X = Return mean_vector /\
    mean_face = as_image height width mean_vector /\
    eigenfaces =
      combine (map (fun i => ndarray_sub
                               (as_image height width (direction (height * width) pca i))
                               mean_face)
                   (seq 0 k))
              (explained_variance_ratio_ pca).
Proof.
  unfold compute_eigenfaces. fold (load imread height width).
  destruct (mapM (load imread height width) image_paths) as [rows|e] eqn:El;
    cbn [bind]; [|discriminate].
  destruct (np_vstack rows) as [X|e] eqn:Ev; cbn [bind]; [|discriminate].
  destruct (fit k X) as [pca'|e] eqn:Ef; cbn [bind]; [|discriminate].
  destruct (ndarray_reshape (components_ pca') _) as [eigenvectors|e] eqn:Er;
    cbn [bind]; [|discriminate].
  destruct (np_mean_axis0 X) as [mean_vector|e] eqn:Em; cbn [bind]; [|discriminate].
  destruct (ndarray_reshape mean_vector _) as [mean_face'|e] eqn:Er';
    cbn [bind]; [|discriminate].
  intros [= <- <- <-].
  apply ndarray_reshape_Return in Er as [Hs Hd], Er' as [Hs' Hd'].
  exists rows, X, mean_vector. repeat split; try assumption.
  - destruct mean_face' as [s d]. cbn in Hs', Hd'. subst. reflexivity.
  - now rewrite (rendered_directions pca' eigenvectors mean_face' k height width Hs Hd).
Qed.

(** The rows loaded from well-formed images are well-formed vectors
    of the target length. *)
Lemma loaded_rows_wf (imread : string -> result ndarray) (image_paths : list string)
    (height width : nat) (rows : list ndarray) :
  (forall p image, imread p = Return image -> wf image) ->
  mapM (load imread height width) image_paths = Return rows ->
  Forall (fun r => shape r = [1; height * width] /\ length (data r) = height * width) rows.
Proof.
  intros Hwf Hl. apply mapM_Return in Hl.
  induction Hl as [|p r ps rs Hp _ IH]; constructor; [|assumption].
  unfold load in Hp. destruct (imread p) as [image|] eqn:Ei; cbn [bind] in Hp;
    [|discriminate].
  exact (_reshape_wf image r height width (Hwf p image Ei) Hp).
Qed.

(** ** The basis renderer, entry by entry *)

(** The entries of the mean face of a run over well-formed images. *)
Lemma mean_face_entries
    (imread : string -> result ndarray)
    (fit : nat -> ndarray -> result RandomizedPCA)
    (image_paths : list string) (k width height : nat)
    (mean_face : ndarray) (eigenfaces : list (ndarray * Q)) (pca : RandomizedPCA) :
  (forall p image, imread p = Return image -> wf image) ->
  compute_eigenfaces imread fit image_paths k width height
    = Return (mean_face, eigenfaces, pca) ->
  exists rows,
    mapM (load imread height width) image_paths = Return rows /\
    shape mean_face = [height; width] /\
    forall a b, a < height -> b < width ->
      item mean_face [a; b]
      = Some (column_sum (a * width + b) rows / inject_Z (Z.of_nat (length rows)))%Q.
Proof.
  intros Hwf E.
  destruct (compute_eigenfaces_inv _ _ _ _ _ _ _ _ _ E)
    as (rows & X & mv & Hl & Hv & Hf & Hm & -> & _).
  exists rows. split; [exact Hl|]. split; [reflexivity|].
  intros a b Ha Hb.
  pose proof (observation_matrix_shape imread _ _ _ _ _ Hl Hv) as HX.
  pose proof (loaded_rows_wf imread _ _ _ _ Hwf Hl) as Hrows.
  pose proof (np_vstack_rows_data _ _ _ Hrows Hv) as HdX.
  assert (Hlen : length image_paths = length rows)
    by exact (Forall2_length _ _ _ (mapM_Return _ _ _ Hl)).
  unfold np_mean_axis0 in Hm. rewrite HX in Hm. injection Hm as <-.
  unfold item, as_image. cbn [shape data offset_from].
  destruct (Nat.ltb_spec a height); [|lia]. destruct (Nat.ltb_spec b width); [|lia].
  cbn [Nat.mul Nat.add].
  assert (Hj : a * width + b < height * width) by nia.
  unfold size_of. cbn [fold_right]. rewrite Nat.mul_1_r.
  rewrite nth_error_map_seq by assumption.
  f_equal. f_equal; [|now rewrite Hlen]. unfold column_sum. f_equal.
  rewrite Hlen, HdX, <- (map_nth_seq (fun r => nth (a * width + b) (data r) 0%Q)
                                     rows (np_zeros [])).
  apply map_ext_in. intros i Hi. apply in_seq in Hi.
  apply nth_concat_row; [|assumption|lia].
  eapply Forall_impl; [exact Hrows|]. now intros r [_ ?].
Qed.




(** ** Further properties of [compute_eigenfaces] *)

(** X6.  An empty list of paths is refused before the engine is asked:
    [np.vstack] has nothing to stack.  The run writes nothing. *)
Theorem empty_corpus_is_refused
    (imread : string -> result ndarray)
    (fit : nat -> ndarray -> result RandomizedPCA)
    (os_makedirs : string -> IO unit)
    (imsave : string -> ndarray -> string -> IO unit)
    (pickle_dump_gz : RandomizedPCA -> string -> IO unit)
    (cfg : config) (data_out : string) (fs : gmap string file) :
  compute_eigenfaces imread fit []
    (NUM_EIGENFACES cfg) (IMAGE_WIDTH cfg) (IMAGE_HEIGHT cfg)
  = Raise (ValueError "need at least one array to concatenate") /\
  plot_eigenfaces imread fit os_makedirs imsave pickle_dump_gz cfg [] data_out fs
  = (Raise (ValueError "need at least one array to concatenate"), fs).
Proof. split; reflexivity. Qed.

(** X7.  A run stops at the first path that fails to load or to
    normalise: the exception of that path is the exception of the run,
    whatever the later paths hold and whatever the engine would do, and
    the output store is left as it was. *)
Theorem first_failing_path_aborts_the_run
    (imread : string -> result ndarray)
    (fit : nat -> ndarray -> result RandomizedPCA)
    (os_makedirs : string -> IO unit)
    (imsave : string -> ndarray -> string -> IO unit)
    (pickle_dump_gz : RandomizedPCA -> string -> IO unit)
    (cfg : config) (before after : list string) (p : string) (e : exn)
    (data_out : string) (fs : gmap string file) :
  (forall p', In p' before ->
     exists v, load imread (IMAGE_HEIGHT cfg) (IMAGE_WIDTH cfg) p' = Return v) ->
  load imread (IMAGE_HEIGHT cfg) (IMAGE_WIDTH cfg) p = Raise e ->
  plot_eigenfaces imread fit os_makedirs imsave pickle_dump_gz
    cfg (before ++ p :: after) data_out fs = (Raise e, fs).
Proof.
  intros Hb Hp. apply plot_eigenfaces_failure, compute_eigenfaces_load_failure.
  now apply mapM_first_failure.
Qed.

(** X8.  When every image loads and normalises, the engine is asked
    once, for [NUM_EIGENFACES] components of a matrix with one row per
    path and one column per pixel of the target; an exception of the
    engine is the exception of the run, and nothing is written. *)
Theorem engine_failure_aborts_the_run
    (imread : string -> result ndarray)
    (fit : nat -> ndarray -> result RandomizedPCA)
    (os_makedirs : string -> IO unit)
    (imsave : string -> ndarray -> string -> IO unit)
    (pickle_dump_gz : RandomizedPCA -> string -> IO unit)
    (cfg : config) (image_paths : list string) (rows : list ndarray)
    (data_out : string) (fs : gmap string file) :
  image_paths <> [] ->
  mapM (load imread (IMAGE_HEIGHT cfg) (IMAGE_WIDTH cfg)) image_paths = Return rows ->
  exists X,
    np_vstack rows = Return X /\
    shape X = [length image_paths; IMAGE_HEIGHT cfg * IMAGE_WIDTH cfg] /\
    forall e, fit (NUM_EIGENFACES cfg) X = Raise e ->
              plot_eigenfaces imread fit os_makedirs imsave pickle_dump_gz
                cfg image_paths data_out fs = (Raise e, fs).
Proof.
  intros Hne Hl.
  assert (Hrows : Forall (fun r => shape r = [1; IMAGE_HEIGHT cfg * IMAGE_WIDTH cfg]) rows).
  { pose proof (mapM_Return _ _ _ Hl) as F. clear -F.
    induction F as [|p r ps rs Hp _ IH]; constructor; [|assumption].
    unfold load in Hp. destruct (imread p); cbn [bind] in Hp; [|discriminate].
    now apply _reshape_Return_shape in Hp. }
  destruct (np_vstack_rows_Return rows (IMAGE_HEIGHT cfg * IMAGE_WIDTH cfg))
    as (X & Hv & HX); [|exact Hrows|].
  { intros ->. apply mapM_Return in Hl. inversion Hl; subst. contradiction. }
  exists X. split; [exact Hv|]. split.
  - now rewrite (Forall2_length _ _ _ (mapM_Return _ _ _ Hl)).
  - intros e He. apply plot_eigenfaces_failure. unfold compute_eigenfaces.
    fold (load imread (IMAGE_HEIGHT cfg) (IMAGE_WIDTH cfg)).
    rewrite Hl. cbn [bind]. rewrite Hv. cbn [bind]. now rewrite He.
Qed.

(** X9.  The observation matrix handed to the engine has the
    normalised images as its rows, in the order of the paths. *)
Theorem engine_receives_the_images_in_order
    (imread : string -> result ndarray)
    (fit : nat -> ndarray -> result RandomizedPCA)
    (image_paths : list string) (k width height : nat)
    (mean_face : ndarray) (eigenfaces : list (ndarray * Q)) (pca : RandomizedPCA) :
  (forall p image, imread p = Return image -> wf image) ->
  compute_eigenfaces imread fit image_paths k width height
    = Return (mean_face, eigenfaces, pca) ->
  exists rows X,
    mapM (load imread height width) image_paths = Return rows /\
    fit k X = Return pca /\
    shape X = [length image_paths; height * width] /\
    rows_of X = map data rows.
Proof.
  intros Hwf E.
  destruct (compute_eigenfaces_inv _ _ _ _ _ _ _ _ _ E)
    as (rows & X & mv & Hl & Hv & Hf & _).
  exists rows, X. split; [exact Hl|]. split; [exact Hf|].
  pose proof (observation_matrix_shape imread _ _ _ _ _ Hl Hv) as HX.
  split; [exact HX|].
  pose proof (loaded_rows_wf imread _ _ _ _ Hwf Hl) as Hrows.
  unfold rows_of. rewrite HX, (np_vstack_rows_data _ _ _ Hrows Hv).
  rewrite (Forall2_length _ _ _ (mapM_Return _ _ _ Hl)).
  rewrite <- (length_map data rows). apply chunks_concat.
  apply Forall_map. eapply Forall_impl; [exact Hrows|]. now intros r [_ ?].
Qed.

(** X10.  The mean face is the pixel-by-pixel average of the normalised
    images: its entry at row [a], column [b] is the sum of the entries
    [a * width + b] of the normalised vectors, divided by their number. *)
Theorem mean_face_is_the_pixelwise_average
    (imread : string -> result ndarray)
    (fit : nat -> ndarray -> result RandomizedPCA)
    (image_paths : list string) (k width height : nat)
    (mean_face : ndarray) (eigenfaces : list (ndarray * Q)) (pca : RandomizedPCA) :
  (forall p image, imread p = Return image -> wf image) ->
  compute_eigenfaces imread fit image_paths k width height
    = Return (mean_face, eigenfaces, pca) ->
  exists rows,
    mapM (load imread height width) image_paths = Return rows /\
    shape mean_face = [height; width] /\
    forall a b, a < height -> b < width ->
      item mean_face [a; b]
      = Some (column_sum (a * width + b) rows / inject_Z (Z.of_nat (length rows)))%Q.
Proof.
  exact (mean_face_entries imread fit image_paths k width height
           mean_face eigenfaces pca).
Qed.

(** X11.  Every eigenface that comes back is a [height] by [width]
    image, and there are as many as the smaller of the requested count
    and the number of ratios of the engine: never more than asked for. *)
Theorem eigenfaces_have_the_target_shape
    (imread : string -> result ndarray)
    (fit : nat -> ndarray -> result RandomizedPCA)
    (image_paths : list string) (k width height : nat)
    (mean_face : ndarray) (eigenfaces : list (ndarray * Q)) (pca : RandomizedPCA) :
  compute_eigenfaces imread fit image_paths k width height
    = Return (mean_face, eigenfaces, pca) ->
  Forall (fun ev => shape (fst ev) = [height; width]) eigenfaces /\
  length eigenfaces = Nat.min k (length (explained_variance_ratio_ pca)) /\
  shape mean_face = [height; width].
Proof.
  intros E.
  destruct (compute_eigenfaces_inv _ _ _ _ _ _ _ _ _ E)
    as (rows & X & mv & _ & _ & _ & _ & -> & ->).
  split; [|split; [|reflexivity]].
  - apply List.Forall_forall. intros [e r] Hin. apply in_combine_l in Hin.
    apply in_map_iff in Hin as (i & <- & _). reflexivity.
  - now rewrite length_combine, length_map, length_seq.
Qed.

(** ** Further properties of the file names *)

Lemma digit_value_digit_char (d : nat) :
  d < 10 -> digit_value (digit_char d) = Some (N.of_nat d).
Proof.
  intros Hd. do 10 (destruct d as [|d]; [reflexivity|]). lia.
Qed.

Lemma str_digits_value (fuel : nat) (n : N) (acc : string) :
  (n < 2 ^ N.of_nat fuel)%N ->
  exists k, forall v,
    decimal_from v (str_digits fuel n acc) = decimal_from (v * 10 ^ k + n) acc.
Proof.
  revert n acc; induction fuel as [|fuel IH]; intros n acc Hn.
  - exists 0%N. intros v. cbn [str_digits]. f_equal.
    change (2 ^ N.of_nat 0)%N with 1%N in Hn. rewrite N.pow_0_r. lia.
  - assert (Hd : digit_value (digit_char (N.to_nat (n mod 10)))
                 = Some (n mod 10)%N).
    { rewrite digit_value_digit_char by (pose proof (N.mod_upper_bound n 10); lia).
      now rewrite N2Nat.id. }
    cbn [str_digits]. cbv zeta. destruct (N.eqb_spec (n / 10) 0) as [E|E].
    + exists 1%N. intros v. cbn [decimal_from]. rewrite Hd. f_equal.
      rewrite N.pow_1_r. pose proof (N.div_mod n 10). lia.
    + destruct (IH (n / 10)%N (String (digit_char (N.to_nat (n mod 10))) acc))
        as (k & Hk).
      { apply N.Div0.div_lt_upper_bound.
        rewrite Nat2N.inj_succ, N.pow_succ_r' in Hn. lia. }
      exists (N.succ k). intros v. rewrite Hk. cbn [decimal_from]. rewrite Hd.
      f_equal. rewrite N.pow_succ_r'. pose proof (N.div_mod n 10). lia.
Qed.

(** A printed integer reads back as itself. *)
Lemma decimal_value_str_N (n : N) : decimal_value (str_N n) = Some n.
Proof.
  unfold str_N.
  destruct (str_digits_first (N.to_nat (N.log2 n)) n "") as (c & rest & E & _).
  unfold decimal_value. rewrite E, <- E.
  destruct (str_digits_value (S (N.to_nat (N.log2 n))) n "") as (k & Hk).
  { rewrite Nat2N.inj_succ, N2Nat.id.
    destruct (N.eq_dec n 0%N) as [->|Hn]; [reflexivity|].
    apply N.log2_spec. lia. }
  rewrite Hk. reflexivity.
Qed.

Lemma split_at_dot_digits (s frac : string) (v m : N) :
  decimal_from v s = Some m ->
  split_at_dot (s ++ String "." frac)%string = Some (s, frac).
Proof.
  revert v; induction s as [|c s IH]; intros v H.
  - reflexivity.
  - cbn [decimal_from] in H.
    change (String c s ++ String "." frac)%string
      with (String c (s ++ String "." frac)%string).
    cbn [split_at_dot].
    destruct (Ascii.eqb_spec c ".") as [->|_]; [discriminate|].
    destruct (digit_value c); [|discriminate].
    now rewrite (IH _ H).
Qed.

Lemma decimal_value_four_digits (n : Z) :
  (0 <= n)%Z ->
  let frac := (digit_of (n / 1000) ++ digit_of (n / 100) ++ digit_of (n / 10)
               ++ digit_of n)%string in
  String.length frac = 4 /\ decimal_value frac = Some (Z.to_N (n mod 10000)).
Proof.
  intros Hn. cbv zeta. unfold digit_of. cbv [String.append]. split; [reflexivity|].
  unfold decimal_value. cbn [decimal_from].
  assert (D : forall m, digit_value (digit_char (Z.to_nat (m mod 10)))
                        = Some (Z.to_N (m mod 10))).
  { intros m. pose proof (Z.mod_pos_bound m 10 ltac:(lia)).
    rewrite digit_value_digit_char by lia. f_equal. lia. }
  rewrite !D. f_equal.
  pose proof (Z.mod_pos_bound (n / 1000) 10 ltac:(lia)).
  pose proof (Z.mod_pos_bound (n / 100) 10 ltac:(lia)).
  pose proof (Z.mod_pos_bound (n / 10) 10 ltac:(lia)).
  pose proof (Z.mod_pos_bound n 10 ltac:(lia)).
  pose proof (Z.mod_pos_bound n 10000 ltac:(lia)).
  apply N2Z.inj. rewrite !N2Z.inj_add, !N2Z.inj_mul, !Z2N.id by lia.
  change (Z.of_N 0) with 0%Z. change (Z.of_N 10) with 10%Z.
  Z.div_mod_to_equations. lia.
Qed.

Lemma fixed4_nonneg (x : Q) : (0 <= fixed4 x)%Z.
Proof.
  unfold fixed4.
  destruct (round_half_even_cases (Qabs x * 10000)) as (_ & L & _). cbn zeta in L.
  pose proof (Qabs_nonneg x) as A.
  destruct (Z_le_gt_dec 0 (round_half_even (Qabs x * 10000))) as [|G]; [assumption|].
  assert (G' : (round_half_even (Qabs x * 10000) <= -1)%Z) by lia.
  rewrite Zle_Qle in G'. change (inject_Z (-1)) with (-1)%Q in G'. nra.
Qed.

Lemma decimal_value_from (s : string) (m : N) :
  decimal_value s = Some m -> decimal_from 0 s = Some m.
Proof. destruct s; [discriminate|trivial]. Qed.

Lemma decimal_value_first (s : string) (m : N) :
  decimal_value s = Some m ->
  exists c t, s = String c t /\ Ascii.eqb c "-" = false.
Proof.
  destruct s as [|c t]; [discriminate|]. unfold decimal_value. cbn [decimal_from].
  intros H. exists c, t. split; [reflexivity|].
  destruct (Ascii.eqb_spec c "-") as [->|]; [discriminate|reflexivity].
Qed.

(** What ['%.4f' % x] prints reads back as the sign of [x] and the
    number of ten-thousandths nearest to its magnitude. *)
Lemma read_4f_format_4f (x : Q) :
  read_4f (format_4f x)
  = Some (if Qlt_le_dec x 0 then true else false, Z.to_N (fixed4 x)).
Proof.
  pose proof (fixed4_nonneg x) as Hn.
  unfold format_4f. cbv zeta.
  set (n := fixed4 x) in *.
  set (frac := (digit_of (n / 1000) ++ digit_of (n / 100) ++ digit_of (n / 10)
                ++ digit_of n)%string).
  destruct (decimal_value_four_digits n Hn) as [Hlen Hfrac]. fold frac in Hlen, Hfrac.
  pose proof (decimal_value_str_N (Z.to_N (n / 10000))) as Hint.
  set (int_part := str_N (Z.to_N (n / 10000))) in *.
  assert (Hsplit : split_at_dot (int_part ++ "." ++ frac)%string = Some (int_part, frac))
    by exact (split_at_dot_digits int_part frac 0 _ (decimal_value_from _ _ Hint)).
  assert (Hval : (Z.to_N (n / 10000) * 10000 + Z.to_N (n mod 10000))%N = Z.to_N n).
  { pose proof (Z.mod_pos_bound n 10000 ltac:(lia)).
    assert (0 <= n / 10000)%Z by (apply Z.div_pos; lia).
    apply N2Z.inj. rewrite N2Z.inj_add, N2Z.inj_mul, !Z2N.id by lia.
    change (Z.of_N 10000) with 10000%Z. pose proof (Z.div_mod n 10000). lia. }
  assert (Hread : read_unsigned_4f (int_part ++ "." ++ frac)%string = Some (Z.to_N n)).
  { unfold read_unsigned_4f. rewrite Hsplit, Hlen. cbn [Nat.eqb].
    now rewrite Hint, Hfrac, Hval. }
  destruct (Qlt_le_dec x 0).
  - change (read_4f ("-" ++ int_part ++ "." ++ frac)%string)
      with (option_map (pair true) (read_unsigned_4f (int_part ++ "." ++ frac)%string)).
    now rewrite Hread.
  - destruct (decimal_value_first _ _ Hint) as (c & t & E & Hc).
    change ("" ++ int_part ++ "." ++ frac)%string with (int_part ++ "." ++ frac)%string.
    unfold read_4f.
    assert (E' : (int_part ++ "." ++ frac)%string = String c (t ++ "." ++ frac)%string)
      by (now rewrite E).
    rewrite E' at 1. rewrite Hc, Hread. reflexivity.
Qed.

Lemma format_4f_first (x : Q) :
  exists c rest, format_4f x = String c rest /\ sign_or_digit c = true.
Proof.
  unfold format_4f.
  destruct (Qlt_le_dec x 0).
  - eexists _, _. split; reflexivity.
  - unfold str_N.
    destruct (str_digits_first (N.to_nat (N.log2 (Z.to_N (fixed4 x / 10000))))
                (Z.to_N (fixed4 x / 10000)) "") as (c & rest & -> & Hc).
    eexists _, _. split; [reflexivity|assumption].
Qed.

Lemma string_length_append (a b : string) :
  String.length (a ++ b)%string = String.length a + String.length b.
Proof.
  induction a as [|c a IH]; [reflexivity|].
  change (String c a ++ b)%string with (String c (a ++ b)%string).
  cbn [String.length]. now rewrite IH.
Qed.

Lemma append_cancel_r (a b s : string) : (a ++ s = b ++ s)%string -> a = b.
Proof.
  revert b; induction a as [|c a IH]; intros [|c' b] E.
  - reflexivity.
  - apply (f_equal String.length) in E.
    rewrite (string_length_append (String c' b) s) in E. cbn [String.length] in E.
    change ("" ++ s)%string with s in E. lia.
  - apply (f_equal String.length) in E.
    rewrite (string_length_append (String c a) s) in E. cbn [String.length] in E.
    change ("" ++ s)%string with s in E. lia.
  - change (String c (a ++ s)%string = String c' (b ++ s)%string) in E.
    injection E as -> E. f_equal. now apply IH.
Qed.

Lemma format_4f_nonneg (x : Q) :
  (0 <= x)%Q ->
  format_4f x
  = (str_N (Z.to_N (fixed4 x / 10000)) ++ "."
     ++ digit_of (fixed4 x / 1000) ++ digit_of (fixed4 x / 100)
     ++ digit_of (fixed4 x / 10) ++ digit_of (fixed4 x))%string.
Proof.
  intros Hx. unfold format_4f. cbv zeta.
  destruct (Qlt_le_dec x 0) as [L|_]; [lra|reflexivity].
Qed.

Lemma fixed4_bounds (x : Q) :
  (Qabs x * 10000 - (1 # 2) <= inject_Z (fixed4 x))%Q /\
  (inject_Z (fixed4 x) <= Qabs x * 10000 + (1 # 2))%Q.
Proof.
  unfold fixed4.
  destruct (round_half_even_cases (Qabs x * 10000)) as (U & L & _). cbn zeta in *.
  split; assumption.
Qed.

Lemma eigenface_name_first (x : Q) :
  exists c rest,
    (format_4f x ++ "%.png")%string = String c rest /\ sign_or_digit c = true.
Proof.
  destruct (format_4f_first x) as (c & rest & E & Hc).
  exists c, (rest ++ "%.png")%string. split; [now rewrite E|assumption].
Qed.

Lemma eigenface_name_relative (x : Q) :
  startswith_slash (format_4f x ++ "%.png") = false.
Proof.
  destruct (eigenface_name_first x) as (c & rest & -> & Hc). cbn [startswith_slash].
  destruct (Ascii.eqb_spec c "/") as [->|]; [discriminate|reflexivity].
Qed.

(** X12.  No eigenface is ever directed to the path of the mean image
    or of the model, whatever the output directory and whatever number is
    printed into its name; and those two paths differ. *)
Theorem eigenface_path_is_never_a_fixed_path (data_out : string) (x : Q) :
  os_path_join data_out (format_4f x ++ "%.png")
    <> os_path_join data_out "mean-face.png" /\
  os_path_join data_out (format_4f x ++ "%.png")
    <> os_path_join data_out "pca.pickle.gz" /\
  os_path_join data_out "mean-face.png" <> os_path_join data_out "pca.pickle.gz".
Proof.
  pose proof (eigenface_name_relative x) as R.
  destruct (eigenface_name_first x) as (c & rest & E & Hc).
  repeat split; intros J; apply os_path_join_cancel in J; try assumption;
    try reflexivity; try discriminate;
    rewrite E in J; injection J as -> _; discriminate.
Qed.

(** X15.  What ['%.4f' % x] prints reads back, digit by digit, as the
    sign of [x] and a whole number of ten-thousandths that differs from
    the magnitude of [x], counted in ten-thousandths, by at most one
    half. *)
Theorem printed_number_reads_back (x : Q) :
  exists n : N,
    read_4f (format_4f x) = Some (if Qlt_le_dec x 0 then true else false, n) /\
    (Qabs x * 10000 - (1 # 2) <= inject_Z (Z.of_N n))%Q /\
    (inject_Z (Z.of_N n) <= Qabs x * 10000 + (1 # 2))%Q.
Proof.
  exists (Z.to_N (fixed4 x)). split; [apply read_4f_format_4f|].
  rewrite Z2N.id by apply fixed4_nonneg. apply fixed4_bounds.
Qed.

Lemma read_4f_mono (x1 x2 : Q) :
  (0 <= x2)%Q -> (x2 <= x1)%Q ->
  exists n1 n2 : N,
    read_4f (format_4f x1) = Some (false, n1) /\
    read_4f (format_4f x2) = Some (false, n2) /\
    (n2 <= n1)%N.
Proof.
  intros H0 H12.
  exists (Z.to_N (fixed4 x1)), (Z.to_N (fixed4 x2)).
  rewrite !read_4f_format_4f.
  destruct (Qlt_le_dec x1 0) as [L|_]; [lra|].
  destruct (Qlt_le_dec x2 0) as [L|_]; [lra|].
  split; [reflexivity|]. split; [reflexivity|].
  apply Z2N.inj_le; try apply fixed4_nonneg.
  unfold fixed4. apply round_half_even_mono.
  rewrite !Qabs_pos by lra. lra.
Qed.

(** X16.  Printing keeps the ranking: of two non-negative quantities,
    the larger never prints as the smaller number. *)
Theorem printed_numbers_keep_the_order (x1 x2 : Q) :
  (0 <= x2)%Q -> (x2 <= x1)%Q ->
  exists n1 n2 : N,
    read_4f (format_4f x1) = Some (false, n1) /\
    read_4f (format_4f x2) = Some (false, n2) /\
    (n2 <= n1)%N.
Proof. exact (read_4f_mono x1 x2). Qed.

(** X30.  The names of the eigenfaces keep the ranking of the engine:
    of two components with non-negative ratios, the one with the smaller
    ratio is saved under a name whose number, read back, is no larger.
    Rounding the product by 100 to a double does not disturb the order. *)
Theorem eigenface_names_keep_the_ranking (r1 r2 : Q) :
  (0 <= r2)%Q -> (r2 <= r1)%Q ->
  exists (s1 s2 : string) (n1 n2 : N),
    share_filename r1 = (s1 ++ "%.png")%string /\
    share_filename r2 = (s2 ++ "%.png")%string /\
    read_4f s1 = Some (false, n1) /\
    read_4f s2 = Some (false, n2) /\
    (n2 <= n1)%N.
Proof.
  intros H0 H12.
  destruct (read_4f_mono (float_mul r1 100) (float_mul r2 100))
    as (n1 & n2 & E1 & E2 & Hle).
  - now apply float_mul_nonneg.
  - now apply float_mul_mono.
  - exists (format_4f (float_mul r1 100)), (format_4f (float_mul r2 100)), n1, n2.
    repeat split; assumption.
Qed.

(** X23.  Two eigenfaces are directed to one and the same path exactly
    when the numbers printed into their names read back alike; for
    non-negative quantities more than one ten-thousandth apart that never
    happens. *)
Theorem eigenface_paths_coincide_iff (data_out : string) (x y : Q) :
  (os_path_join data_out (format_4f x ++ "%.png")
   = os_path_join data_out (format_4f y ++ "%.png")
   <-> read_4f (format_4f x) = read_4f (format_4f y)) /\
  ((0 <= x)%Q -> (x * 10000 + 1 < y * 10000)%Q ->
   os_path_join data_out (format_4f x ++ "%.png")
   <> os_path_join data_out (format_4f y ++ "%.png")).
Proof.
  pose proof eigenface_name_relative as R.
  assert (F : os_path_join data_out (format_4f x ++ "%.png")
              = os_path_join data_out (format_4f y ++ "%.png")
              <-> read_4f (format_4f x) = read_4f (format_4f y)).
  { split.
    - intros J. apply os_path_join_cancel in J; [|apply R|apply R].
      apply append_cancel_r in J. now rewrite J.
    - rewrite !read_4f_format_4f. intros [= Es En].
      apply Z2N.inj in En; try apply fixed4_nonneg.
      unfold format_4f. cbv zeta. rewrite En.
      destruct (Qlt_le_dec x 0), (Qlt_le_dec y 0); try discriminate; reflexivity. }
  split; [exact F|].
  intros Hx Hxy J. apply F in J. rewrite !read_4f_format_4f in J.
  injection J as _ En. apply Z2N.inj in En; try apply fixed4_nonneg.
  destruct (fixed4_bounds x) as [_ Ux]. destruct (fixed4_bounds y) as [Ly _].
  rewrite En in Ux. rewrite !Qabs_pos in * by lra. lra.
Qed.

(** ** The writers: [_makedirs], [_imsave], [_serialize] *)

Lemma _makedirs_Return (os_makedirs : string -> IO unit) (dirname : string)
    (fs fs' : gmap string file) :
  os_makedirs dirname fs = (Return tt, fs') ->
  _makedirs os_makedirs dirname fs = (Return tt, fs').
Proof. intros E. unfold _makedirs. now rewrite E. Qed.

Lemma _makedirs_EEXIST (os_makedirs : string -> IO unit) (dirname msg : string)
    (fs fs' : gmap string file) :
  os_makedirs dirname fs = (Raise (OSError EEXIST msg), fs') ->
  _makedirs os_makedirs dirname fs = (Return tt, fs').
Proof. intros E. unfold _makedirs. now rewrite E. Qed.

Lemma _makedirs_Raise (os_makedirs : string -> IO unit) (dirname : string)
    (e : exn) (fs fs' : gmap string file) :
  os_makedirs dirname fs = (Raise e, fs') -> not_EEXIST e ->
  _makedirs os_makedirs dirname fs = (Raise e, fs').
Proof.
  intros E N. unfold _makedirs. rewrite E.
  destruct e as [| | |errno msg]; try reflexivity.
  cbn [not_EEXIST] in N. destruct (Z.eqb_spec errno EEXIST); [contradiction|reflexivity].
Qed.

Lemma up_to_last_slash_slash_free (name : string) :
  slash_free name = true -> up_to_last_slash name = "".
Proof.
  induction name as [|c name IH]; [reflexivity|]. cbn [slash_free up_to_last_slash].
  intros H. apply andb_prop in H as [Hc Hn]. rewrite (IH Hn).
  now destruct (Ascii.eqb c "/").
Qed.

Lemma up_to_last_slash_dir (d name : string) :
  slash_free name = true ->
  up_to_last_slash (d ++ String "/" name) = (d ++ "/")%string.
Proof.
  intros Hn. induction d as [|c d IH].
  - change ("" ++ String "/" name)%string with (String "/" name).
    cbn [up_to_last_slash]. now rewrite (up_to_last_slash_slash_free _ Hn).
  - change (String c d ++ String "/" name)%string with (String c (d ++ String "/" name)%string).
    cbn [up_to_last_slash]. rewrite IH.
    change (String c d ++ "/")%string with (String c (d ++ "/")%string).
    destruct d; reflexivity.
Qed.

Lemma only_slashes_dir (d : string) :
  d <> "" -> endswith_slash d = false -> only_slashes (d ++ "/") = false.
Proof.
  induction d as [|c d IH]; [congruence|]. intros _ He.
  change (String c d ++ "/")%string with (String c (d ++ "/")%string).
  cbn [only_slashes]. destruct d as [|c' d].
  - cbn [endswith_slash] in He. now rewrite He.
  - rewrite IH; [apply andb_false_r|discriminate|exact He].
Qed.

Lemma rstrip_slashes_dir (d : string) :
  endswith_slash d = false -> rstrip_slashes (d ++ "/") = d.
Proof.
  induction d as [|c d IH]; [reflexivity|]. intros He.
  change (String c d ++ "/")%string with (String c (d ++ "/")%string).
  cbn [rstrip_slashes]. destruct d as [|c' d].
  - cbn [endswith_slash] in He.
    change ("" ++ "/")%string with "/". cbn [rstrip_slashes Ascii.eqb].
    change (Ascii.eqb "/" "/") with true. cbv iota. now rewrite He.
  - rewrite IH by exact He. reflexivity.
Qed.

(** The directory of an artifact is the output directory. *)
Lemma os_path_dirname_join (data_out name : string) :
  slash_free name = true -> name <> "" ->
  data_out = "" \/ endswith_slash data_out = false ->
  os_path_dirname (os_path_join data_out name) = data_out.
Proof.
  intros Hn Hne Hd.
  assert (Hs : startswith_slash name = false).
  { destruct name as [|c name]; [reflexivity|]. cbn [slash_free] in Hn.
    apply andb_prop in Hn as [Hc _]. cbn [startswith_slash].
    now destruct (Ascii.eqb c "/"). }
  unfold os_path_join. rewrite Hs.
  destruct (String.eqb_spec data_out "") as [->|Hd'].
  - cbn [orb]. change ("" ++ name)%string with name.
    unfold os_path_dirname. now rewrite (up_to_last_slash_slash_free _ Hn).
  - destruct Hd as [->|He]; [congruence|]. rewrite He. cbn [orb].
    change ("/" ++ name)%string with (String "/" name).
    unfold os_path_dirname. rewrite (up_to_last_slash_dir _ _ Hn).
    rewrite (only_slashes_dir _ Hd' He).
    assert (Hnz : String.eqb (data_out ++ "/") "" = false)
      by (destruct data_out; [congruence|reflexivity]).
    rewrite Hnz. cbn [negb andb]. now apply rstrip_slashes_dir.
Qed.

Lemma slash_free_app (a b : string) :
  slash_free (a ++ b) = slash_free a && slash_free b.
Proof.
  induction a as [|c a IH]; [reflexivity|].
  change (String c a ++ b)%string with (String c (a ++ b)%string).
  cbn [slash_free]. now rewrite IH, andb_assoc.
Qed.

Lemma slash_free_digits (s : string) (v m : N) :
  decimal_from v s = Some m -> slash_free s = true.
Proof.
  revert v; induction s as [|c s IH]; intros v H; [reflexivity|].
  cbn [decimal_from] in H. cbn [slash_free].
  destruct (Ascii.eqb_spec c "/") as [->|_]; [discriminate|].
  destruct (digit_value c); [|discriminate]. exact (IH _ H).
Qed.

Lemma slash_free_eigenface_name (x : Q) : slash_free (format_4f x ++ "%.png") = true.
Proof.
  pose proof (fixed4_nonneg x) as Hn.
  unfold format_4f. cbv zeta.
  destruct (decimal_value_four_digits (fixed4 x) Hn) as [_ Hfrac]. cbv zeta in Hfrac.
  pose proof (decimal_value_str_N (Z.to_N (fixed4 x / 10000))) as Hint.
  apply decimal_value_from, slash_free_digits in Hfrac, Hint.
  rewrite !slash_free_app, Hint.
  rewrite !slash_free_app in Hfrac. rewrite Hfrac.
  now destruct (Qlt_le_dec x 0).
Qed.

(** X25.  [_makedirs] ignores an already existing directory and nothing
    else: it returns when [os.makedirs] returns or raises the [OSError]
    of an existing file, and lets every other exception through
    unchanged. *)
Theorem makedirs_ignores_an_existing_directory
    (os_makedirs : string -> IO unit) (dirname : string) (fs fs' : gmap string file) :
  (os_makedirs dirname fs = (Return tt, fs') ->
   _makedirs os_makedirs dirname fs = (Return tt, fs')) /\
  (forall msg, os_makedirs dirname fs = (Raise (OSError EEXIST msg), fs') ->
   _makedirs os_makedirs dirname fs = (Return tt, fs')) /\
  (forall e, os_makedirs dirname fs = (Raise e, fs') -> not_EEXIST e ->
   _makedirs os_makedirs dirname fs = (Raise e, fs')).
Proof.
  split; [apply _makedirs_Return|]. split.
  - intros msg. apply _makedirs_EEXIST.
  - intros e. apply _makedirs_Raise.
Qed.

(** X26.  [_imsave] and [_serialize] make the directory of the path
    first.  When that fails with anything but the [OSError] of an
    existing file, the exception escapes and nothing is written: the
    image and the model are not handed to [imsave] and [pickle.dump].
    Otherwise the file is written with the library call, the image with
    the grey colour map. *)
Theorem writers_make_the_directory_first
    (os_makedirs : string -> IO unit)
    (imsave : string -> ndarray -> string -> IO unit)
    (pickle_dump_gz : RandomizedPCA -> string -> IO unit)
    (path : string) (matrix : ndarray) (obj : RandomizedPCA)
    (fs fs' : gmap string file) :
  (forall e, os_makedirs (os_path_dirname path) fs = (Raise e, fs') -> not_EEXIST e ->
     _imsave os_makedirs imsave path matrix fs = (Raise e, fs') /\
     _serialize os_makedirs pickle_dump_gz obj path fs = (Raise e, fs')) /\
  (os_makedirs (os_path_dirname path) fs = (Return tt, fs') \/
   (exists msg, os_makedirs (os_path_dirname path) fs = (Raise (OSError EEXIST msg), fs')) ->
     _imsave os_makedirs imsave path matrix fs = imsave path matrix "gray" fs' /\
     _serialize os_makedirs pickle_dump_gz obj path fs = pickle_dump_gz obj path fs').
Proof.
  split.
  - intros e E N. unfold _imsave, _serialize, io_bind.
    now rewrite (_makedirs_Raise _ _ _ _ _ E N).
  - intros [E|[msg E]]; unfold _imsave, _serialize, io_bind.
    + now rewrite (_makedirs_Return _ _ _ _ E).
    + now rewrite (_makedirs_EEXIST _ _ _ _ _ E).
Qed.

(** X27.  Every artifact of a run lies in the output directory itself:
    the directory [_imsave] and [_serialize] make for the mean image, an
    eigenface or the model is [data_out], be it empty or a name that does
    not end in a slash. *)
Theorem artifacts_lie_in_the_output_directory (data_out : string) (x : Q) :
  data_out = "" \/ endswith_slash data_out = false ->
  os_path_dirname (os_path_join data_out "mean-face.png") = data_out /\
  os_path_dirname (os_path_join data_out (format_4f x ++ "%.png")) = data_out /\
  os_path_dirname (os_path_join data_out "pca.pickle.gz") = data_out.
Proof.
  intros Hd. repeat split; apply os_path_dirname_join; try assumption;
    try reflexivity; try discriminate.
  - apply slash_free_eigenface_name.
  - destruct (format_4f_first x) as (c & rest & E & _). rewrite E. discriminate.
Qed.

(** X28.  A run whose images load and whose engine answers, but whose
    output directory cannot be made, fails with the exception of
    [os.makedirs] before anything is written: neither the mean image nor
    an eigenface nor the model is handed to a writer. *)
Theorem unmakeable_directory_aborts_the_run
    (imread : string -> result ndarray)
    (fit : nat -> ndarray -> result RandomizedPCA)
    (os_makedirs : string -> IO unit)
    (imsave : string -> ndarray -> string -> IO unit)
    (pickle_dump_gz : RandomizedPCA -> string -> IO unit)
    (cfg : config) (image_paths : list string) (data_out : string)
    (fs fs' : gmap string file)
    (mean_face : ndarray) (eigenfaces : list (ndarray * Q)) (pca : RandomizedPCA)
    (e : exn) :
  compute_eigenfaces imread fit image_paths
    (NUM_EIGENFACES cfg) (IMAGE_WIDTH cfg) (IMAGE_HEIGHT cfg)
    = Return (mean_face, eigenfaces, pca) ->
  data_out = "" \/ endswith_slash data_out = false ->
  os_makedirs data_out fs = (Raise e, fs') ->
  not_EEXIST e ->
  plot_eigenfaces imread fit os_makedirs imsave pickle_dump_gz
    cfg image_paths data_out fs = (Raise e, fs').
Proof.
  intros E Hd Hm N. unfold plot_eigenfaces. unfold io_bind at 1. unfold lift at 1.
  rewrite E. unfold io_bind at 1. unfold _imsave, io_bind at 1.
  rewrite os_path_dirname_join by (first [reflexivity | discriminate | assumption]).
  now rewrite (_makedirs_Raise _ _ _ _ _ Hm N).
Qed.

Lemma write_eigenfaces_lookup_other (data_out : string)
    (eigenfaces : list (ndarray * Q)) (fs : gmap string file) (p : string) :
  (forall e r, In (e, r) eigenfaces -> os_path_join data_out (share_filename r) <> p) ->
  write_eigenfaces data_out eigenfaces fs !! p = fs !! p.
Proof.
  unfold write_eigenfaces.
  revert fs; induction eigenfaces as [|[e r] es IH]; intros fs H; [reflexivity|].
  cbn [fold_left]. rewrite IH.
  - apply lookup_insert_ne. apply (H e r). now left.
  - intros e' r' Hin. apply (H e' r'). now right.
Qed.

Lemma share_path_not_fixed (data_out : string) (r : Q) :
  os_path_join data_out (share_filename r) <> os_path_join data_out "mean-face.png" /\
  os_path_join data_out (share_filename r) <> os_path_join data_out "pca.pickle.gz".
Proof.
  destruct (share_filename_not_fixed r) as [M P].
  split; intros E; apply os_path_join_cancel in E;
    try apply share_filename_relative; try reflexivity; contradiction.
Qed.

Lemma fixed_paths_differ (data_out : string) :
  os_path_join data_out "mean-face.png" <> os_path_join data_out "pca.pickle.gz".
Proof.
  intros E. apply os_path_join_cancel in E; [discriminate|reflexivity|reflexivity].
Qed.

(** X29.  On a file system that takes every write, a run whose images
    load and whose engine answers succeeds, and afterwards the mean image
    and the model are on disk under [mean-face.png] and [pca.pickle.gz]:
    no eigenface is saved over either of them, whatever its share. *)
Theorem mean_face_and_model_are_kept
    (imread : string -> result ndarray)
    (fit : nat -> ndarray -> result RandomizedPCA)
    (os_makedirs : string -> IO unit)
    (imsave : string -> ndarray -> string -> IO unit)
    (pickle_dump_gz : RandomizedPCA -> string -> IO unit)
    (cfg : config) (image_paths : list string) (data_out : string)
    (fs : gmap string file)
    (mean_face : ndarray) (eigenfaces : list (ndarray * Q)) (pca : RandomizedPCA) :
  accepting os_makedirs imsave pickle_dump_gz ->
  compute_eigenfaces imread fit image_paths
    (NUM_EIGENFACES cfg) (IMAGE_WIDTH cfg) (IMAGE_HEIGHT cfg)
    = Return (mean_face, eigenfaces, pca) ->
  exists fs',
    plot_eigenfaces imread fit os_makedirs imsave pickle_dump_gz
      cfg image_paths data_out fs = (Return tt, fs') /\
    fs' !! os_path_join data_out "mean-face.png" = Some (Png mean_face) /\
    fs' !! os_path_join data_out "pca.pickle.gz" = Some (PickleGz pca).
Proof.
  intros A E. eexists.
  split; [exact (plot_eigenfaces_Return _ _ _ _ _ _ _ _ _ _ _ _ A E)|].
  split.
  - rewrite lookup_insert_ne by (intros E'; symmetry in E'; now apply fixed_paths_differ in E').
    rewrite write_eigenfaces_lookup_other; [apply lookup_insert_eq|].
    intros e r _. apply share_path_not_fixed.
  - apply lookup_insert_eq.
Qed.

(** ** The message of a refusal *)

(** X24.  The message of the script's own refusal names the shape of
    the image in decimal: between the parentheses stand two numerals that
    read back as the height and the width of the image. *)
Theorem unhandled_case_message_names_the_shape
    (image : ndarray) (h w height width : nat) :
  shape image = [h; w] ->
  height <= h -> width <= w -> (h, w) <> (height, width) ->
  exists sh sw,
    _reshape image height width
    = Raise (ValueError ("unhandled resizing case: (" ++ (sh ++ ", " ++ sw) ++ ")")) /\
    decimal_value sh = Some (N.of_nat h) /\
    decimal_value sw = Some (N.of_nat w).
Proof.
  intros Hs Hh Hw Hne. exists (str_nat h), (str_nat w).
  split; [|split; apply decimal_value_str_N].
  rewrite (_reshape_2d _ _ _ _ _ Hs).
  rewrite shape_eqb_neq by (intros [= -> ->]; now apply Hne).
  cbn [negb].
  destruct (Nat.ltb_spec h height); [lia|]. destruct (Nat.ltb_spec w width); [lia|].
  reflexivity.
Qed.

(** ** [_load_image_as_vector] *)

(** X17.  For a two-dimensional image, [_load_image_as_vector] returns
    the two extents of the image, in the order of its shape, with the
    image as one row; the row is the one [_reshape] returns for a target
    of the image's own shape. *)
Theorem load_image_as_vector_agrees_with_reshape
    (imread : string -> result ndarray) (path : string) (image : ndarray) (h w : nat) :
  imread path = Return image ->
  shape image = [h; w] ->
  _load_image_as_vector imread path
    = Return ((h, w), {| shape := [1; h * w]; data := data image |}) /\
  _reshape image h w = Return {| shape := [1; h * w]; data := data image |}.
Proof.
  intros Hi Hs. split; [|now apply _reshape_exact].
  unfold _load_image_as_vector. rewrite Hi. cbn [bind]. rewrite Hs. cbn [unpack2 bind].
  unfold ndarray_reshape. now rewrite Hs, size_of_flat.
Qed.

(** X18.  An image that is not two-dimensional -- a colour image, with
    its channel axis, among them -- is refused by
    [_load_image_as_vector] with a [ValueError]: its shape does not
    unpack into two extents. *)
Theorem load_image_as_vector_refuses_other_ranks
    (imread : string -> result ndarray) (path : string) (image : ndarray) :
  imread path = Return image ->
  length (shape image) <> 2 ->
  exists msg, _load_image_as_vector imread path = Raise (ValueError msg).
Proof.
  intros Hi Hn. unfold _load_image_as_vector. rewrite Hi. cbn [bind].
  destruct (shape image) as [|a [|b [|c rest]]]; cbn [unpack2 bind];
    try (eexists; reflexivity).
  cbn in Hn. lia.
Qed.

(** ** [_log] *)

Lemma rstrip_newlines_spec (s : string) :
  exists tail,
    s = (rstrip_newlines s ++ tail)%string /\
    only_newlines tail = true /\
    last_char (rstrip_newlines s) <> Some newline.
Proof.
  induction s as [|c s (tail & Hs & Ht & Hl)].
  - exists ""%string. repeat split. discriminate.
  - cbn [rstrip_newlines]. destruct (rstrip_newlines s) as [|c' t] eqn:R.
    + destruct (Ascii.eqb_spec c newline) as [->|Hc].
      * exists (String newline tail). cbn [String.append] in *. subst s.
        repeat split; [|discriminate]. cbn [only_newlines]. rewrite Ht.
        now rewrite Ascii.eqb_refl.
      * exists tail. cbn [String.append] in *. subst s. repeat split; [assumption|].
        cbn [last_char]. congruence.
    + exists tail. cbn [String.append] in *. rewrite Hs at 1.
      repeat split; [assumption|]. exact Hl.
Qed.

Lemma rstrip_newlines_app (s tail : string) :
  only_newlines tail = true ->
  rstrip_newlines (s ++ tail)%string = rstrip_newlines s.
Proof.
  intros Ht.
  assert (E : rstrip_newlines tail = ""%string).
  { induction tail as [|c t IH]; [reflexivity|]. cbn [only_newlines] in Ht.
    apply andb_true_iff in Ht as [Hc Ht]. cbn [rstrip_newlines].
    rewrite (IH Ht). now rewrite Hc. }
  induction s as [|c s IH]; [exact E|].
  change (String c s ++ tail)%string with (String c (s ++ tail)%string).
  cbn [rstrip_newlines]. now rewrite IH.
Qed.

(** X19.  [_log] appends one line to the channel: the time stamp in
    brackets, a space, the message without its trailing newlines (all of
    them, and nothing else), and one newline. *)
Theorem log_writes_one_terminated_line (now message channel : string) :
  exists body tail,
    message = (body ++ tail)%string /\
    only_newlines tail = true /\
    last_char body <> Some newline /\
    _log now message channel
    = (channel ++ "[" ++ now ++ "] " ++ body ++ String newline "")%string.
Proof.
  destruct (rstrip_newlines_spec message) as (tail & Hs & Ht & Hl).
  exists (rstrip_newlines message), tail. repeat split; assumption.
Qed.

(** X20.  Newlines at the end of a message do not show in the log: a
    message logs as the same message with any number of newlines added
    at its end. *)
Theorem log_ignores_trailing_newlines (now message tail channel : string) :
  only_newlines tail = true ->
  _log now (message ++ tail)%string channel = _log now message channel.
Proof.
  intros Ht. unfold _log. now rewrite rstrip_newlines_app.
Qed.

(** ** Further properties of [_reshape] *)

(** X1.  Whether [_reshape] returns a vector, and with which exception
    it fails otherwise, is decided by the shape of the image and the
    target alone. *)
Theorem reshape_outcome_by_shape (image : ndarray) (height width : nat) :
  match _reshape_outcome (shape image) height width with
  | None => exists v, _reshape image height width = Return v
                      /\ shape v = [1; height * width]
  | Some e => _reshape image height width = Raise e
  end.
Proof. apply _reshape_cases. Qed.

(** X2.  A well-formed image is normalised to a well-formed vector: one
    row of exactly [height * width] entries. *)
Theorem reshape_keeps_vectors_well_formed (image v : ndarray) (height width : nat) :
  wf image ->
  _reshape image height width = Return v ->
  shape v = [1; height * width] /\ wf v.
Proof.
  intros Wf E. destruct (_reshape_wf image v height width Wf E) as [Hs Hl].
  split; [exact Hs|]. unfold wf. rewrite Hs, Hl. unfold size_of. cbn [fold_right]. lia.
Qed.

(** X3.  An image that already has the target shape is flattened row
    by row, unchanged. *)
Theorem reshape_flattens_a_matching_image (image : ndarray) (height width : nat) :
  wf image ->
  shape image = [height; width] ->
  _reshape image height width
  = Return {| shape := [1; height * width]; data := flatten (rows_of image) |}.
Proof.
  intros Wf Hs. rewrite (_reshape_exact _ _ _ Hs). do 2 f_equal.
  unfold flatten, rows_of. rewrite Hs. symmetry. apply concat_chunks.
  unfold wf in Wf. rewrite Wf, Hs. unfold size_of. cbn [fold_right]. lia.
Qed.

(** X4.  An image of the target height that is narrower than the
    target is padded on the right: every row is followed by zeros up to
    the target width, and the rows are flattened in order. *)
Theorem reshape_pads_missing_columns (image : ndarray) (w height width : nat) :
  shape image = [height; w] ->
  w < width ->
  _reshape image height width
  = Return {| shape := [1; height * width];
              data := flatten (pad_right (width - w) (rows_of image)) |}.
Proof.
  intros Hs Hw.
  rewrite (_reshape_narrow image w height width (width - w - 1) Hs) by lia.
  replace (S (width - w - 1)) with (width - w) by lia. reflexivity.
Qed.

(** X5.  Of an image with a channel axis, whatever the number of
    channels (one or more), only channel 0 is kept, and only the number
    of pixels is compared with the target: the image is flattened when
    its [h * w] pixels are as many as the target's, and refused with a
    [ValueError] otherwise. *)
Theorem reshape_keeps_channel_0_of_any_depth
    (image : ndarray) (h w c height width : nat) :
  shape image = [h; w; c] ->
  c <> 0 ->
  _reshape image height width =
    if h * w =? height * width
    then Return {| shape := [1; height * width];
                   data := flatten (channel 0 (pixels_of image)) |}
    else Raise (ValueError "total size of new array must be unchanged").
Proof. apply _reshape_3d. Qed.

(** ** Closed instances of the further properties *)

Lemma sample_imread_wf (p : string) (image : ndarray) :
  sample_imread p = Return image -> wf image.
Proof.
  unfold sample_imread.
  repeat (destruct (String.eqb p _);
          [intros [= <-]; first [apply ramp_wf | vm_compute; reflexivity]|]).
  discriminate.
Qed.

Lemma reshape_keeps_vectors_well_formed_witness :
  exists v,
    wf (ramp [1; 2] 5) /\
    _reshape (ramp [1; 2] 5) 2 2 = Return v /\
    shape v = [1; 2 * 2] /\ wf v.
Proof.
  destruct (_reshape (ramp [1; 2] 5) 2 2) as [v|e] eqn:E; [|vm_compute in E; discriminate].
  exists v. split; [apply ramp_wf|]. split; [reflexivity|].
  exact (reshape_keeps_vectors_well_formed (ramp [1; 2] 5) v 2 2 (ramp_wf _ _) E).
Defined.

Lemma reshape_flattens_a_matching_image_witness :
  wf (ramp [2; 2] 1) /\
  shape (ramp [2; 2] 1) = [2; 2] /\
  _reshape (ramp [2; 2] 1) 2 2
  = Return {| shape := [1; 2 * 2]; data := flatten (rows_of (ramp [2; 2] 1)) |}.
Proof.
  split; [reflexivity|]. split; [reflexivity|].
  apply (reshape_flattens_a_matching_image (ramp [2; 2] 1) 2 2); reflexivity.
Defined.

Lemma reshape_pads_missing_columns_witness :
  shape (ramp [2; 1] 7) = [2; 1] /\
  1 < 3 /\
  _reshape (ramp [2; 1] 7) 2 3
  = Return {| shape := [1; 2 * 3];
              data := flatten (pad_right (3 - 1) (rows_of (ramp [2; 1] 7))) |}.
Proof.
  split; [reflexivity|]. split; [lia|].
  apply (reshape_pads_missing_columns (ramp [2; 1] 7) 1 2 3); [reflexivity|lia].
Defined.

Lemma reshape_keeps_channel_0_of_any_depth_witness :
  shape (ramp [1; 4; 2] 1) = [1; 4; 2] /\
  2 <> 0 /\
  _reshape (ramp [1; 4; 2] 1) 2 2 =
    if 1 * 4 =? 2 * 2
    then Return {| shape := [1; 2 * 2];
                   data := flatten (channel 0 (pixels_of (ramp [1; 4; 2] 1))) |}
    else Raise (ValueError "total size of new array must be unchanged").
Proof.
  split; [reflexivity|]. split; [lia|].
  apply (reshape_keeps_channel_0_of_any_depth (ramp [1; 4; 2] 1) 1 4 2 2 2);
    [reflexivity|lia].
Defined.


Lemma first_failing_path_aborts_the_run_witness :
  (forall p', In p' ["small-a.png"] ->
     exists v, load sample_imread (IMAGE_HEIGHT small_config) (IMAGE_WIDTH small_config) p'
               = Return v) /\
  load sample_imread (IMAGE_HEIGHT small_config) (IMAGE_WIDTH small_config) "lost.png"
    = Raise (IOError "No such file or directory: lost.png") /\
  plot_eigenfaces sample_imread (sample_fit []) sample_makedirs sample_imsave sample_dump
    small_config
    (["small-a.png"] ++ "lost.png" :: ["small-b.png"]) "out" ∅
  = (Raise (IOError "No such file or directory: lost.png"), ∅).
Proof.
  assert (Hb : forall p', In p' ["small-a.png"] ->
     exists v, load sample_imread (IMAGE_HEIGHT small_config) (IMAGE_WIDTH small_config) p'
               = Return v).
  { intros p' [<-|[]]. eexists. vm_compute. reflexivity. }
  split; [exact Hb|]. split; [reflexivity|].
  apply (first_failing_path_aborts_the_run sample_imread (sample_fit [])
           sample_makedirs sample_imsave sample_dump small_config
           ["small-a.png"] ["small-b.png"] "lost.png"
           (IOError "No such file or directory: lost.png") "out" ∅).
  - exact Hb.
  - reflexivity.
Defined.

Lemma engine_failure_aborts_the_run_witness :
  exists rows X,
    ["small-a.png"; "small-c.png"] <> [] /\
    mapM (load sample_imread (IMAGE_HEIGHT small_config) (IMAGE_WIDTH small_config))
      ["small-a.png"; "small-c.png"] = Return rows /\
    np_vstack rows = Return X /\
    shape X = [2; 2 * 2] /\
    (forall e, failing_fit (NUM_EIGENFACES small_config) X = Raise e ->
               plot_eigenfaces sample_imread failing_fit
                 sample_makedirs sample_imsave sample_dump small_config
                 ["small-a.png"; "small-c.png"] "out" ∅ = (Raise e, ∅)).
Proof.
  destruct (mapM (load sample_imread (IMAGE_HEIGHT small_config) (IMAGE_WIDTH small_config))
              ["small-a.png"; "small-c.png"]) as [rows|e] eqn:E;
    [|vm_compute in E; discriminate].
  destruct (engine_failure_aborts_the_run sample_imread failing_fit
              sample_makedirs sample_imsave sample_dump small_config
              ["small-a.png"; "small-c.png"] rows "out" ∅) as (X & Hv & HX & Hf).
  - discriminate.
  - exact E.
  - exists rows, X. split; [discriminate|]. split; [reflexivity|].
    split; [exact Hv|]. split; [exact HX|exact Hf].
Defined.

Lemma engine_receives_the_images_in_order_witness :
  exists mean_face eigenfaces pca rows X,
    (forall p image, sample_imread p = Return image -> wf image) /\
    compute_eigenfaces sample_imread (sample_fit [3 # 4; 1 # 4]%Q)
      ["small-a.png"; "small-b.png"; "small-c.png"] 2 2 2
      = Return (mean_face, eigenfaces, pca) /\
    mapM (load sample_imread 2 2) ["small-a.png"; "small-b.png"; "small-c.png"]
      = Return rows /\
    sample_fit [3 # 4; 1 # 4]%Q 2 X = Return pca /\
    shape X = [3; 2 * 2] /\
    rows_of X = map data rows.
Proof.
  destruct (compute_eigenfaces sample_imread (sample_fit [3 # 4; 1 # 4]%Q)
              ["small-a.png"; "small-b.png"; "small-c.png"] 2 2 2)
    as [[[mean_face eigenfaces] pca]|e] eqn:E; [|vm_compute in E; discriminate].
  destruct (engine_receives_the_images_in_order sample_imread
              (sample_fit [3 # 4; 1 # 4]%Q)
              ["small-a.png"; "small-b.png"; "small-c.png"] 2 2 2
              mean_face eigenfaces pca sample_imread_wf E)
    as (rows & X & Hl & Hf & HX & Hr).
  exists mean_face, eigenfaces, pca, rows, X.
  split; [exact sample_imread_wf|]. split; [reflexivity|].
  split; [exact Hl|]. split; [exact Hf|]. split; [exact HX|exact Hr].
Defined.

Lemma mean_face_is_the_pixelwise_average_witness :
  exists mean_face eigenfaces pca rows,
    (forall p image, sample_imread p = Return image -> wf image) /\
    compute_eigenfaces sample_imread (sample_fit [3 # 4; 1 # 4]%Q)
      ["small-a.png"; "small-b.png"; "small-c.png"] 2 2 2
      = Return (mean_face, eigenfaces, pca) /\
    mapM (load sample_imread 2 2) ["small-a.png"; "small-b.png"; "small-c.png"]
      = Return rows /\
    shape mean_face = [2; 2] /\
    (forall a b, a < 2 -> b < 2 ->
       item mean_face [a; b]
       = Some (column_sum (a * 2 + b) rows / inject_Z (Z.of_nat (length rows)))%Q).
Proof.
  destruct (compute_eigenfaces sample_imread (sample_fit [3 # 4; 1 # 4]%Q)
              ["small-a.png"; "small-b.png"; "small-c.png"] 2 2 2)
    as [[[mean_face eigenfaces] pca]|e] eqn:E; [|vm_compute in E; discriminate].
  destruct (mean_face_is_the_pixelwise_average sample_imread
              (sample_fit [3 # 4; 1 # 4]%Q)
              ["small-a.png"; "small-b.png"; "small-c.png"] 2 2 2
              mean_face eigenfaces pca sample_imread_wf E)
    as (rows & Hl & Hs & Hm).
  exists mean_face, eigenfaces, pca, rows.
  split; [exact sample_imread_wf|]. split; [reflexivity|].
  split; [exact Hl|]. split; [exact Hs|exact Hm].
Defined.

Lemma eigenfaces_have_the_target_shape_witness :
  exists mean_face eigenfaces pca,
    compute_eigenfaces sample_imread (sample_fit [3 # 4; 1 # 4]%Q)
      ["small-a.png"; "small-b.png"; "small-c.png"] 2 2 2
      = Return (mean_face, eigenfaces, pca) /\
    Forall (fun ev => shape (fst ev) = [2; 2]) eigenfaces /\
    length eigenfaces = Nat.min 2 (length (explained_variance_ratio_ pca)) /\
    shape mean_face = [2; 2].
Proof.
  destruct (compute_eigenfaces sample_imread (sample_fit [3 # 4; 1 # 4]%Q)
              ["small-a.png"; "small-b.png"; "small-c.png"] 2 2 2)
    as [[[mean_face eigenfaces] pca]|e] eqn:E; [|vm_compute in E; discriminate].
  exists mean_face, eigenfaces, pca. split; [reflexivity|].
  exact (eigenfaces_have_the_target_shape sample_imread (sample_fit [3 # 4; 1 # 4]%Q)
           ["small-a.png"; "small-b.png"; "small-c.png"] 2 2 2
           mean_face eigenfaces pca E).
Defined.

Lemma unhandled_case_message_names_the_shape_witness :
  exists sh sw,
    _reshape (ramp [120; 100] 1) 100 100
    = Raise (ValueError ("unhandled resizing case: (" ++ (sh ++ ", " ++ sw) ++ ")")) /\
    decimal_value sh = Some 120%N /\
    decimal_value sw = Some 100%N.
Proof.
  apply (unhandled_case_message_names_the_shape (ramp [120; 100] 1) 120 100 100 100);
    [reflexivity|lia|lia|discriminate].
Defined.

Lemma printed_numbers_keep_the_order_witness :
  exists n1 n2 : N,
    read_4f (format_4f 50) = Some (false, n1) /\
    read_4f (format_4f 25) = Some (false, n2) /\
    (n2 <= n1)%N.
Proof.
  apply (printed_numbers_keep_the_order 50 25); [vm_compute; discriminate|vm_compute; discriminate].
Defined.

Lemma eigenface_paths_coincide_iff_witness :
  os_path_join "out" (format_4f 25 ++ "%.png")
  <> os_path_join "out" (format_4f 50 ++ "%.png").
Proof.
  apply (proj2 (eigenface_paths_coincide_iff "out" 25 50)); reflexivity || (vm_compute; discriminate).
Defined.

Lemma artifacts_lie_in_the_output_directory_witness :
  os_path_dirname (os_path_join "out" "mean-face.png") = "out" /\
  os_path_dirname (os_path_join "out" (format_4f 50 ++ "%.png")) = "out" /\
  os_path_dirname (os_path_join "out" "pca.pickle.gz") = "out".
Proof.
  apply (artifacts_lie_in_the_output_directory "out" 50). right. reflexivity.
Defined.

Lemma unmakeable_directory_aborts_the_run_witness :
  exists mean_face eigenfaces pca,
    compute_eigenfaces sample_imread (sample_fit [3 # 4; 1 # 4]%Q)
      ["small-a.png"; "small-b.png"; "small-c.png"]
      (NUM_EIGENFACES small_config) (IMAGE_WIDTH small_config) (IMAGE_HEIGHT small_config)
      = Return (mean_face, eigenfaces, pca) /\
    plot_eigenfaces sample_imread (sample_fit [3 # 4; 1 # 4]%Q)
      strict_makedirs sample_imsave sample_dump small_config
      ["small-a.png"; "small-b.png"; "small-c.png"] "" ∅
    = (Raise (OSError 2 "No such file or directory"), ∅).
Proof.
  destruct (compute_eigenfaces sample_imread (sample_fit [3 # 4; 1 # 4]%Q)
              ["small-a.png"; "small-b.png"; "small-c.png"]
              (NUM_EIGENFACES small_config) (IMAGE_WIDTH small_config)
              (IMAGE_HEIGHT small_config))
    as [[[mean_face eigenfaces] pca]|e] eqn:E; [|vm_compute in E; discriminate].
  exists mean_face, eigenfaces, pca. split; [reflexivity|].
  apply (unmakeable_directory_aborts_the_run sample_imread (sample_fit [3 # 4; 1 # 4]%Q)
           strict_makedirs sample_imsave sample_dump small_config
           ["small-a.png"; "small-b.png"; "small-c.png"] "" ∅ ∅
           mean_face eigenfaces pca (OSError 2 "No such file or directory") E).
  - left. reflexivity.
  - reflexivity.
  - cbn. discriminate.
Defined.

Lemma mean_face_and_model_are_kept_witness :
  exists mean_face eigenfaces pca fs',
    accepting sample_makedirs sample_imsave sample_dump /\
    compute_eigenfaces sample_imread (sample_fit [3 # 4; 1 # 4]%Q)
      ["small-a.png"; "small-b.png"; "small-c.png"]
      (NUM_EIGENFACES small_config) (IMAGE_WIDTH small_config) (IMAGE_HEIGHT small_config)
      = Return (mean_face, eigenfaces, pca) /\
    plot_eigenfaces sample_imread (sample_fit [3 # 4; 1 # 4]%Q)
      sample_makedirs sample_imsave sample_dump small_config
      ["small-a.png"; "small-b.png"; "small-c.png"] "out" ∅ = (Return tt, fs') /\
    fs' !! os_path_join "out" "mean-face.png" = Some (Png mean_face) /\
    fs' !! os_path_join "out" "pca.pickle.gz" = Some (PickleGz pca).
Proof.
  destruct (compute_eigenfaces sample_imread (sample_fit [3 # 4; 1 # 4]%Q)
              ["small-a.png"; "small-b.png"; "small-c.png"]
              (NUM_EIGENFACES small_config) (IMAGE_WIDTH small_config)
              (IMAGE_HEIGHT small_config))
    as [[[mean_face eigenfaces] pca]|e] eqn:E; [|vm_compute in E; discriminate].
  destruct (mean_face_and_model_are_kept sample_imread (sample_fit [3 # 4; 1 # 4]%Q)
              sample_makedirs sample_imsave sample_dump
              small_config ["small-a.png"; "small-b.png"; "small-c.png"] "out" ∅
              mean_face eigenfaces pca sample_accepting E) as (fs' & Hrun & Hm & Hp).
  exists mean_face, eigenfaces, pca, fs'.
  split; [exact sample_accepting|].
  split; [reflexivity|]. split; [exact Hrun|]. split; [exact Hm|exact Hp].
Defined.

Lemma eigenface_names_keep_the_ranking_witness :
  exists (s1 s2 : string) (n1 n2 : N),
    share_filename (3 # 4) = (s1 ++ "%.png")%string /\
    share_filename (1 # 4) = (s2 ++ "%.png")%string /\
    read_4f s1 = Some (false, n1) /\
    read_4f s2 = Some (false, n2) /\
    (n2 <= n1)%N.
Proof.
  apply (eigenface_names_keep_the_ranking (3 # 4) (1 # 4));
    vm_compute; discriminate.
Defined.

Lemma load_image_as_vector_agrees_with_reshape_witness :
  sample_imread "small-c.png" = Return (ramp [1; 2] 5) /\
  shape (ramp [1; 2] 5) = [1; 2] /\
  _load_image_as_vector sample_imread "small-c.png"
    = Return ((1, 2), {| shape := [1; 1 * 2]; data := data (ramp [1; 2] 5) |}) /\
  _reshape (ramp [1; 2] 5) 1 2
    = Return {| shape := [1; 1 * 2]; data := data (ramp [1; 2] 5) |}.
Proof.
  split; [reflexivity|]. split; [reflexivity|].
  apply (load_image_as_vector_agrees_with_reshape sample_imread "small-c.png"
           (ramp [1; 2] 5) 1 2); reflexivity.
Defined.

Lemma load_image_as_vector_refuses_other_ranks_witness :
  colour_imread "face.png" = Return (ramp [2; 2; 3] 1) /\
  length (shape (ramp [2; 2; 3] 1)) <> 2 /\
  exists msg, _load_image_as_vector colour_imread "face.png" = Raise (ValueError msg).
Proof.
  split; [reflexivity|]. split; [discriminate|].
  apply (load_image_as_vector_refuses_other_ranks colour_imread "face.png"
           (ramp [2; 2; 3] 1)); [reflexivity|discriminate].
Defined.

Lemma log_ignores_trailing_newlines_witness :
  only_newlines (String newline (String newline "")) = true /\
  _log "2014-08-0112:00:00" ("saving mean face" ++ String newline (String newline ""))%string ""
  = _log "2014-08-0112:00:00" "saving mean face" "".
Proof.
  split; [reflexivity|].
  apply (log_ignores_trailing_newlines "2014-08-0112:00:00" "saving mean face"
           (String newline (String newline "")) ""). reflexivity.
Defined.

(** ** The image in its canvas *)

Lemma nth_error_concat_uniform {A : Type} (n i j : nat) (ls : list (list A)) :
  Forall (fun l => length l = n) ls ->
  i < length ls -> j < n ->
  nth_error (concat ls) (i * n + j) = nth_error (nth i ls []) j.
Proof.
  intros H. revert i. induction H as [|l ls Hl _ IH]; intros i Hi Hj;
    cbn [length] in Hi; [lia|].
  cbn [concat]. destruct i as [|i].
  - cbn [Nat.mul Nat.add nth]. apply nth_error_app1. lia.
  - rewrite nth_error_app2 by (rewrite Hl; nia).
    replace (S i * n + j - length l) with (i * n + j) by (rewrite Hl; nia).
    cbn [nth]. apply IH; [lia|assumption].
Qed.

Lemma chunks_lengths {A : Type} (n count : nat) (l : list A) :
  length l = count * n ->
  Forall (fun c => length c = n) (chunks n count l).
Proof.
  revert l; induction count as [|c IH]; intros l L; cbn [chunks]; constructor.
  - rewrite length_firstn. cbn in L. lia.
  - apply IH. rewrite length_skipn. cbn in L. lia.
Qed.

Lemma nth_error_repeat_lt {A : Type} (x : A) (n k : nat) :
  k < n -> nth_error (repeat x n) k = Some x.
Proof.
  revert k; induction n as [|n IH]; intros k Hk; [lia|].
  destruct k as [|k]; [reflexivity|]. cbn. apply IH. lia.
Qed.

Lemma item_row_vector (v : ndarray) (n k : nat) :
  shape v = [1; n] -> k < n -> item v [0; k] = nth_error (data v) k.
Proof.
  intros Hs Hk. unfold item. rewrite Hs. cbn [offset_from].
  change (0 <? 1) with true. cbn iota.
  destruct (Nat.ltb_spec k n); [|lia]. reflexivity.
Qed.

Lemma item_2d (a : ndarray) (h w i j : nat) :
  shape a = [h; w] -> i < h -> j < w -> item a [i; j] = nth_error (data a) (i * w + j).
Proof.
  intros Hs Hi Hj. unfold item. rewrite Hs. cbn [offset_from].
  destruct (Nat.ltb_spec i h); [|lia]. destruct (Nat.ltb_spec j w); [|lia]. reflexivity.
Qed.

(** What [_reshape] returns for an image of the target width that is
    short of the target height. *)
Lemma _reshape_short (image : ndarray) (h height width : nat) :
  wf image -> shape image = [h; width] -> h < height ->
  _reshape image height width =
    Return {| shape := [1; height * width];
              data := data image ++ repeat 0%Q ((height - h) * width) |}.
Proof.
  intros Wf Hs Hh. rewrite (_reshape_2d _ _ _ _ _ Hs).
  rewrite shape_eqb_neq by (intros [= ?]; lia). cbn [negb].
  destruct (Nat.ltb_spec h height); [|lia].
  rewrite (np_vstack_two image (np_zeros [height - h; width]) h (height - h) width Wf)
    by (try reflexivity; try assumption;
        unfold wf, np_zeros; cbn [shape data]; apply repeat_length).
  cbn [bind]. unfold ndarray_reshape. cbn [shape data].
  replace (size_of [h + (height - h + 0); width] =? size_of [1; height * width])
    with true by (symmetry; apply Nat.eqb_eq; unfold size_of; cbn [fold_right]; nia).
  unfold np_zeros, size_of. cbn [data fold_right]. now rewrite Nat.mul_1_r.
Qed.

(** X21.  A two-dimensional image that is accepted sits unchanged in
    the top left corner of a canvas of zeros of the target shape: entry
    [i * width + j] of the vector is pixel [(i, j)] of the image where the
    image has one, and zero elsewhere.  No pixel is dropped, moved or
    altered. *)
Theorem reshape_places_the_image_on_a_zero_canvas
    (image : ndarray) (h w height width : nat) :
  wf image ->
  shape image = [h; w] ->
  reconcilable h w height width ->
  exists v,
    _reshape image height width = Return v /\
    forall i j, i < height -> j < width ->
      item v [0; i * width + j]
      = if (i <? h) && (j <? w) then item image [i; j] else Some 0%Q.
Proof.
  intros Wf Hs R.
  assert (Hlen : length (data image) = h * w).
  { unfold wf in Wf. rewrite Wf, Hs. unfold size_of. cbn [fold_right]. lia. }
  destruct R as [[-> ->]|[[Hh ->]|[-> Hw]]].
  - eexists. split; [exact (_reshape_exact _ _ _ Hs)|].
    intros i j Hi Hj. rewrite (item_row_vector _ (height * width)) by (reflexivity || nia).
    destruct (Nat.ltb_spec i height); [|lia]. destruct (Nat.ltb_spec j width); [|lia].
    cbn [andb data]. symmetry. now apply (item_2d image height width).
  - eexists. split; [exact (_reshape_short _ _ _ _ Wf Hs Hh)|].
    intros i j Hi Hj. rewrite (item_row_vector _ (height * width)) by (reflexivity || nia).
    cbn [data]. destruct (Nat.ltb_spec j width); [|lia]. rewrite andb_true_r.
    destruct (Nat.ltb_spec i h) as [Hi'|Hi'].
    + rewrite nth_error_app1 by nia. symmetry. now apply (item_2d image h width).
    + rewrite nth_error_app2 by nia. apply nth_error_repeat_lt. rewrite Hlen. nia.
  - eexists. split; [exact (_reshape_narrow image w height width (width - w - 1) Hs
                              ltac:(lia))|].
    intros i j Hi Hj. rewrite (item_row_vector _ (height * width)) by (reflexivity || nia).
    cbn [data]. destruct (Nat.ltb_spec i height); [|lia]. cbn [andb].
    unfold flatten, pad_right, rows_of. rewrite Hs.
    replace (S (width - w - 1)) with (width - w) by lia.
    rewrite (nth_error_concat_uniform width).
    + rewrite (nth_map_lt _ _ _ _ []) by (rewrite chunks_length; assumption).
      destruct (Nat.ltb_spec j w) as [Hj'|Hj'].
      * rewrite nth_error_app1.
        -- rewrite <- (rows_of_item image height w i j Hs) by assumption.
           unfold rows_of. now rewrite Hs.
        -- rewrite nth_chunks, length_firstn, length_skipn by assumption. nia.
      * rewrite nth_error_app2.
        -- apply nth_error_repeat_lt.
           rewrite nth_chunks, length_firstn, length_skipn by assumption. nia.
        -- rewrite nth_chunks, length_firstn, length_skipn by assumption. nia.
    + apply Forall_map. eapply Forall_impl; [apply (chunks_lengths w height); lia|].
      intros c Hc. cbn beta. rewrite length_app, repeat_length, Hc. lia.
    + now rewrite length_map, chunks_length.
    + assumption.
Qed.

Lemma reshape_places_the_image_on_a_zero_canvas_witness :
  wf (ramp [2; 1] 7) /\
  shape (ramp [2; 1] 7) = [2; 1] /\
  reconcilable 2 1 2 3 /\
  exists v,
    _reshape (ramp [2; 1] 7) 2 3 = Return v /\
    forall i j, i < 2 -> j < 3 ->
      item v [0; i * 3 + j]
      = if (i <? 2) && (j <? 1) then item (ramp [2; 1] 7) [i; j] else Some 0%Q.
Proof.
  assert (R : reconcilable 2 1 2 3) by (unfold reconcilable; lia).
  split; [reflexivity|]. split; [reflexivity|]. split; [exact R|].
  apply (reshape_places_the_image_on_a_zero_canvas (ramp [2; 1] 7) 2 1 2 3);
    [reflexivity|reflexivity|exact R].
Defined.
